(** * DarkHook relayer agent (src/relayer/relayer.js): a shallow embedding

    The relayer is one long-lived [RelayerAgent] object whose methods are
    [async] functions mutating its fields.  The embedding threads the
    object's fields through a state-and-exception monad; everything the
    methods read from outside the object (the RPC provider, the wall
    clock, the TEE output file, [Math.random]) is an oracle of an
    environment record, indexed by a logical clock that advances at every
    suspension point.

    JavaScript strings are sequences of UTF-16 code units.  The model
    covers the strings whose code units are below 256, one [ascii] per
    code unit, so that [String.length] is the JavaScript [length]. *)

From Stdlib Require Import ZArith NArith QArith Ascii String List Bool Lia.
From stdpp Require Import base gmap strings list.

Local Open Scope Z_scope.

(* ------------------------------------------------------------------ *)
(** ** JavaScript primitives used by the relayer *)
(* ------------------------------------------------------------------ *)

Module JS.

(** [String.prototype.toLowerCase] on one code unit below 256: the
    letters A-Z and the Latin-1 capitals U+00C0..U+00DE (U+00D7, the
    multiplication sign, apart) move up by 32. *)
Definition lowerUnit (c : ascii) : ascii :=
  let n := N_of_ascii c in
  if ((65 <=? n) && (n <=? 90) ||
      (192 <=? n) && (n <=? 214) ||
      (216 <=? n) && (n <=? 222))%N
  then ascii_of_N (n + 32) else c.

Fixpoint toLowerCase (s : string) : string :=
  match s with
  | EmptyString => EmptyString
  | String c r => String (lowerUnit c) (toLowerCase r)
  end.

(** [s.repeat(n)] for a one-character [s]. *)
Fixpoint repeat (c : ascii) (n : nat) : string :=
  match n with
  | O => EmptyString
  | S k => String c (repeat c k)
  end.

(** [s.padEnd(n, c)] for a one-character filler [c]. *)
Definition padEnd (s : string) (n : nat) (c : ascii) : string :=
  (s ++ repeat c (n - String.length s))%string.

(** [s.slice(0, n)] for [n >= 0]. *)
Definition slice0 (s : string) (n : nat) : string := String.substring 0 n s.

(** StrWhiteSpaceChar, restricted to code units below 256: TAB, LF, VT,
    FF, CR, SP and NBSP. *)
Definition isStrWhiteSpace (c : ascii) : bool :=
  let n := N_of_ascii c in
  ((9 <=? n) && (n <=? 13) || (n =? 32) || (n =? 160))%N.

Fixpoint dropWhiteSpace (s : string) : string :=
  match s with
  | EmptyString => EmptyString
  | String c r => if isStrWhiteSpace c then dropWhiteSpace r else s
  end.

Fixpoint rev (s : string) : string :=
  match s with
  | EmptyString => EmptyString
  | String c r => (rev r ++ String c EmptyString)%string
  end.

Definition trim (s : string) : string :=
  rev (dropWhiteSpace (rev (dropWhiteSpace s))).

(** Value of a digit in the given radix; [None] for any other unit. *)
Definition digitValue (radix : Z) (c : ascii) : option Z :=
  let n := Z.of_N (N_of_ascii c) in
  let v := if (48 <=? n) && (n <=? 57) then Some (n - 48)
           else if (97 <=? n) && (n <=? 102) then Some (n - 87)
           else if (65 <=? n) && (n <=? 70) then Some (n - 55)
           else None in
  match v with
  | Some d => if d <? radix then Some d else None
  | None => None
  end.

Fixpoint digitsFrom (radix : Z) (acc : Z) (s : string) : option Z :=
  match s with
  | EmptyString => Some acc
  | String c r =>
      match digitValue radix c with
      | Some d => digitsFrom radix (acc * radix + d) r
      | None => None
      end
  end.

(** One or more digits of the radix. *)
Definition digits (radix : Z) (s : string) : option Z :=
  match s with
  | EmptyString => None
  | _ => digitsFrom radix 0 s
  end.

(** [BigInt(s)] on a string (StringToBigInt): surrounding white space is
    dropped; the empty text is [0n]; then either an unsigned literal in
    radix 16, 8 or 2 behind [0x], [0o], [0b], or decimal digits behind
    an optional sign.  [None] stands for the [SyntaxError] thrown on
    anything else. *)
Definition BigInt (s : string) : option Z :=
  match trim s with
  | EmptyString => Some 0
  | String "0" (String "x" r) | String "0" (String "X" r) => digits 16 r
  | String "0" (String "o" r) | String "0" (String "O" r) => digits 8 r
  | String "0" (String "b" r) | String "0" (String "B" r) => digits 2 r
  | String "+" r => digits 10 r
  | String "-" r => Z.opp <$> digits 10 r
  | t => digits 10 t
  end.

(** [n.toString(16)] for [0 <= n < 16]. *)
Definition hexDigit (n : nat) : ascii :=
  match String.get (n mod 16) "0123456789abcdef" with
  | Some c => c
  | None => "0"%char
  end.

End JS.

Example BigInt_usdc : JS.BigInt "1000000000" = Some 1000000000.
Proof. reflexivity. Qed.
Example BigInt_blank : JS.BigInt "  " = Some 0.
Proof. reflexivity. Qed.
Example BigInt_neg : JS.BigInt " -5 " = Some (-5).
Proof. reflexivity. Qed.
Example BigInt_hex : JS.BigInt "0x1F" = Some 31.
Proof. reflexivity. Qed.
Example BigInt_bad : JS.BigInt "1.5" = None /\ JS.BigInt "0x" = None /\ JS.BigInt "-0x1" = None.
Proof. repeat split; reflexivity. Qed.
Example lower_addr :
  JS.toLowerCase "0x7E5F4552091A69125d5DfCb7b8C2659029395Bdf"
  = "0x7e5f4552091a69125d5dfcb7b8c2659029395bdf"%string.
Proof. reflexivity. Qed.

(* ------------------------------------------------------------------ *)
(** ** Data model *)
(* ------------------------------------------------------------------ *)

(** An execution proof as the TEE writes it (the fields of the records in
    [execution_proofs.json] and of the demo proof of [mockFetchProofs]).
    Amounts are decimal strings, read with [BigInt] where they are used;
    [teeSignature] is [None] when the field is missing or [null]. *)
Record Proof := mkProof {
  batchId : string;
  timestamp : Z;
  user : string;
  tokenIn : string;
  tokenOut : string;
  amountIn : string;
  amountOut : string;
  clearingPrice : string;
  intentHash : string;
  userSignature : string;
  teeSignature : option string;
  teeSigner : string;
  merkleRoot : string;
  mevSaved : string
}.

(** The constants of [CONFIG] that the agent's methods read. *)
Record Config := mkConfig {
  TRUSTED_TEE_SIGNER : string;
  POLL_INTERVAL_MS : Z;
  MAX_GAS_PRICE_GWEI : Z;
  GAS_BUFFER_PERCENT : Z;
  MEV_PROTECTION_ENABLED : bool
}.

Definition CONFIG : Config := {|
  TRUSTED_TEE_SIGNER := "0x7E5F4552091A69125d5DfCb7b8C2659029395Bdf";
  POLL_INTERVAL_MS := 3000;
  MAX_GAS_PRICE_GWEI := 50;
  GAS_BUFFER_PERCENT := 20;
  MEV_PROTECTION_ENABLED := true
|}.

(** [this.stats].  The three counters are JavaScript numbers stepped by
    [++]; the two totals are BigInts. *)
Record Stats := mkStats {
  proofsProcessed : nat;
  successfulExecutions : nat;
  failedExecutions : nat;
  totalGasSpent : Z;
  totalMevSaved : Z
}.

(** The outcome of a call: a value, or a thrown error with its
    [message]. *)
Inductive completion (A : Type) : Type :=
| Normal (a : A)
| Throw (message : string).
Arguments Normal {A} a.
Arguments Throw {A} message.

Inductive MevRisk := LOW | MEDIUM | HIGH.

(** The object [executeProof] returns. *)
Inductive ExecResult :=
| ExecSuccess (txHash : string)
| ExecFailure (error : string).

(** The [FeeData] of the provider; [gasPrice] is a BigInt or [null]. *)
Record FeeData := mkFeeData { gasPrice : option N }.

(** The struct [executeProof] builds for [executePrivateOrder]. *)
Record ProofStruct := mkProofStruct {
  ps_batchId : string;
  ps_user : string;
  ps_tokenIn : string;
  ps_tokenOut : string;
  ps_amountIn : Z;
  ps_amountOut : Z;
  ps_clearingPrice : Z;
  ps_intentHash : string;
  ps_userSignature : string;
  ps_teeSignature : option string;
  ps_merkleRoot : string;
  ps_deadline : Z
}.

(** The reason printed by [validateProof] when it returns [false]. *)
Inductive RejectReason :=
| UntrustedSigner      (* 'Untrusted TEE signer' *)
| Expired              (* 'Proof expired' *)
| MalformedSignature   (* 'Invalid TEE signature format' *)
| InvalidAmounts.      (* 'Invalid amounts' *)

(** The lines the agent prints, in the order it prints them: the lines
    that open a call or report its outcome are kept, the intermediate
    check marks and the formatted amounts are not.  A line about a proof
    carries that proof, where the source prints a prefix of [proof.user]
    or of [proof.intentHash]. *)
Inductive Line :=
| Scanning
| Found (n : nat)
| Queued (p : Proof)
| ProcessingQueue (n : nat)
| MonitorError (message : string)
| Validating (p : Proof)
| Rejected (p : Proof) (r : RejectReason)
| Validated (p : Proof)
| Analyzing (p : Proof)
| GasTooHigh (p : Proof)
| GasAcceptable
| RiskAssessed (r : MevRisk)
| HighRisk (p : Proof)
| CurrentBlock (n : N)
| TimingConfirmed (p : Proof)
| Executing (p : Proof)
| GasEstimated (gasEstimate gasWithBuffer : Z)
| TxSubmitted (txHash : string)
| TxConfirmed (block : N)
| ExecutionFailed (p : Proof) (message : string).

(** What the agent reads from outside itself.  Every oracle is indexed by
    the logical clock at which it is consulted. *)
Record Env := mkEnv {
  getFeeData : nat -> completion FeeData;     (* provider.getFeeData() *)
  getBlockNumber : nat -> completion N;       (* provider.getBlockNumber() *)
  dateNow : nat -> Z;                         (* Math.floor(Date.now() / 1000) *)
  teeOutput : nat -> option (list Proof);
    (* execution_proofs.json: [Some ps] when the file exists, parses,
       and has a truthy [success] and the array [executionProofs] *)
  mathRandom16 : nat -> nat -> nat            (* Math.floor(Math.random() * 16) *)
}.

(** The agent object.  [clock] and [console] are not fields of the
    source object: [clock] counts the suspension points passed so far and
    [console] is the output printed so far. *)
Record RelayerAgent := mkAgent {
  processedProofs : gset string;
  isRunning : bool;
  executionQueue : list Proof;
  stats : Stats;
  clock : nat;
  console : list Line
}.

Definition set_processedProofs (f : gset string -> gset string) (a : RelayerAgent) :=
  let 'mkAgent processed running queue st t out := a in
  mkAgent (f processed) running queue st t out.
Definition set_isRunning (b : bool) (a : RelayerAgent) :=
  let 'mkAgent processed running queue st t out := a in
  mkAgent processed b queue st t out.
Definition set_executionQueue (f : list Proof -> list Proof) (a : RelayerAgent) :=
  let 'mkAgent processed running queue st t out := a in
  mkAgent processed running (f queue) st t out.
Definition set_stats (f : Stats -> Stats) (a : RelayerAgent) :=
  let 'mkAgent processed running queue st t out := a in
  mkAgent processed running queue (f st) t out.
Definition set_clock (f : nat -> nat) (a : RelayerAgent) :=
  let 'mkAgent processed running queue st t out := a in
  mkAgent processed running queue st (f t) out.
Definition set_console (f : list Line -> list Line) (a : RelayerAgent) :=
  let 'mkAgent processed running queue st t out := a in
  mkAgent processed running queue st t (f out).

(** The agent as the constructor leaves it. *)
Definition newAgent : RelayerAgent := {|
  processedProofs := ∅;
  isRunning := false;
  executionQueue := [];
  stats := mkStats 0 0 0 0 0;
  clock := 0;
  console := []
|}.

(* ------------------------------------------------------------------ *)
(** ** The monad of the agent's methods *)
(* ------------------------------------------------------------------ *)

(** A method takes the agent to a completion and the agent as mutated up
    to that point: what a method wrote before it threw stays written. *)
Definition M (A : Type) : Type := RelayerAgent -> completion A * RelayerAgent.

Definition ret {A} (a : A) : M A := fun s => (Normal a, s).

Definition bind {A B} (m : M A) (k : A -> M B) : M B :=
  fun s => match m s with
           | (Normal a, s') => k a s'
           | (Throw e, s') => (Throw e, s')
           end.

Definition throw {A} (e : string) : M A := fun s => (Throw e, s).

Definition tryCatch {A} (m : M A) (handler : string -> M A) : M A :=
  fun s => match m s with
           | (Normal a, s') => (Normal a, s')
           | (Throw e, s') => handler e s'
           end.

Definition modify (f : RelayerAgent -> RelayerAgent) : M unit :=
  fun s => (Normal tt, f s).

Definition reads {A} (f : RelayerAgent -> A) : M A := fun s => (Normal (f s), s).

Notation "'let!' x ':=' m 'in' k" := (bind m (fun x => k))
  (at level 10, x name, m at level 100, k at level 200).
Notation "m '>>' k" := (bind m (fun _ => k))
  (at level 90, right associativity).

(** [console.log] *)
Definition print (l : Line) : M unit := modify (set_console (fun c => c ++ [l])).

(** A suspension point: hands out the current instant and moves on. *)
Definition tick : M nat := fun s => (Normal (clock s), set_clock S s).

(** [await this.sleep(ms)] *)
Definition sleep (ms : Z) : M unit := tick >> ret tt.

(** An [await] on an oracle of the environment. *)
Definition await {A} (oracle : nat -> completion A) : M A :=
  let! t := tick in
  match oracle t with
  | Normal a => ret a
  | Throw e => throw e
  end.

(** [for (const x of xs) body] *)
Fixpoint forOf {X} (xs : list X) (body : X -> M unit) : M unit :=
  match xs with
  | [] => ret tt
  | x :: rest => body x >> forOf rest body
  end.

(** [BigInt(s)] inside a method. *)
Definition toBigInt (s : string) : M Z :=
  match JS.BigInt s with
  | Some z => ret z
  | None => throw ("Cannot convert " ++ s ++ " to a BigInt")
  end.

(* ------------------------------------------------------------------ *)
(** ** Proof validation *)
(* ------------------------------------------------------------------ *)

(** [validateProof] with the two values it reads from outside the proof
    made explicit: the trusted signer ([CONFIG.TRUSTED_TEE_SIGNER]) and
    the current time in seconds ([Math.floor(Date.now() / 1000)]). *)
Definition validateProofAt (trusted : string) (now : Z) (proof : Proof) : M bool :=
  print (Validating proof) >>
  (* 1. Check TEE signer is trusted *)
  if negb (String.eqb (JS.toLowerCase (teeSigner proof)) (JS.toLowerCase trusted)) then
    print (Rejected proof UntrustedSigner) >> ret false
  else
  (* 2. Check proof freshness *)
  let proofAge := now - timestamp proof in
  if proofAge >? 3600 then
    print (Rejected proof Expired) >> ret false
  else
  (* 3. Verify TEE signature format *)
  if match teeSignature proof with
     | None => true
     | Some sig => (String.length sig <? 130)%nat
     end
  then
    print (Rejected proof MalformedSignature) >> ret false
  else
  (* 4. Check amounts are reasonable *)
  let! amountIn := toBigInt (amountIn proof) in
  let! amountOut := toBigInt (amountOut proof) in
  if (amountIn <=? 0) || (amountOut <=? 0) then
    print (Rejected proof InvalidAmounts) >> ret false
  else
    print (Validated proof) >> ret true.

Definition validateProof (env : Env) (proof : Proof) : M bool :=
  let! t := reads clock in
  validateProofAt (TRUSTED_TEE_SIGNER CONFIG) (dateNow env t) proof.

(* ------------------------------------------------------------------ *)
(** ** Optimal timing *)
(* ------------------------------------------------------------------ *)

(** [Number(feeData.gasPrice) / 1e9], as an exact rational; [Number(null)]
    is [0].  Against the bound [50] the double the source computes
    compares as this quotient does: rounding is monotone and [50] is a
    double. *)
Definition gasPriceGwei (feeData : FeeData) : Q :=
  match gasPrice feeData with
  | Some g => Z.of_N g # 1000000000
  | None => 0
  end.

Definition gasTooHigh (feeData : FeeData) : bool :=
  negb (Qle_bool (gasPriceGwei feeData) (inject_Z (MAX_GAS_PRICE_GWEI CONFIG))).

Definition assessMEVRisk (proof : Proof) : M MevRisk :=
  let! amountIn := toBigInt (amountIn proof) in
  if amountIn >? 10000 * 10 ^ 6 then ret MEDIUM else ret LOW.

Definition isHIGH (r : MevRisk) : bool :=
  match r with HIGH => true | _ => false end.

Definition determineOptimalTiming (env : Env) (proof : Proof) : M bool :=
  print (Analyzing proof) >>
  (* 1. Check current gas price *)
  let! feeData := await (getFeeData env) in
  if gasTooHigh feeData then
    print (GasTooHigh proof) >> ret false
  else
  print GasAcceptable >>
  (* 2. Check mempool for MEV risk *)
  let! blocked :=
    (if MEV_PROTECTION_ENABLED CONFIG then
       let! mevRisk := assessMEVRisk proof in
       print (RiskAssessed mevRisk) >>
       if isHIGH mevRisk then print (HighRisk proof) >> ret true else ret false
     else ret false) in
  if (blocked : bool) then ret false
  else
  (* 3. Check block timing *)
  let! currentBlock := await (getBlockNumber env) in
  print (CurrentBlock currentBlock) >>
  print (TimingConfirmed proof) >>
  ret true.

(* ------------------------------------------------------------------ *)
(** ** Execution *)
(* ------------------------------------------------------------------ *)

Definition bumpProofsProcessed (st : Stats) : Stats :=
  let 'mkStats processed ok failed gas mev := st in
  mkStats (S processed) ok failed gas mev.
Definition bumpSuccessfulExecutions (st : Stats) : Stats :=
  let 'mkStats processed ok failed gas mev := st in
  mkStats processed (S ok) failed gas mev.
Definition bumpFailedExecutions (st : Stats) : Stats :=
  let 'mkStats processed ok failed gas mev := st in
  mkStats processed ok (S failed) gas mev.
Definition addGasSpent (d : Z) (st : Stats) : Stats :=
  let 'mkStats processed ok failed gas mev := st in
  mkStats processed ok failed (gas + d) mev.
Definition addMevSaved (d : Z) (st : Stats) : Stats :=
  let 'mkStats processed ok failed gas mev := st in
  mkStats processed ok failed gas (mev + d).

(** The object literal [proofStruct]; its fields are evaluated in source
    order, so the first [BigInt] that fails is the one that throws. *)
Definition buildProofStruct (env : Env) (proof : Proof) : M ProofStruct :=
  let batch := JS.slice0 (JS.padEnd (batchId proof) 66 "0") 66 in
  let! aIn := toBigInt (amountIn proof) in
  let! aOut := toBigInt (amountOut proof) in
  let! price := toBigInt (clearingPrice proof) in
  let! t := reads clock in
  ret (mkProofStruct batch (user proof) (tokenIn proof) (tokenOut proof)
         aIn aOut price (intentHash proof) (userSignature proof)
         (teeSignature proof) (merkleRoot proof) (dateNow env t + 300)).

(** ['0x' + Array(64).fill(0).map(() => Math.floor(Math.random() * 16).toString(16)).join('')] *)
Definition mockTxHash (env : Env) (t : nat) : string :=
  ("0x" ++ string_of_list_ascii
            (List.map (fun i => JS.hexDigit (mathRandom16 env t i)) (seq 0 64)))%string.

(** [gasEstimate * feeData.gasPrice]: a BigInt times [null] throws. *)
Definition gasCost (gasEstimate : Z) (feeData : FeeData) : M Z :=
  match gasPrice feeData with
  | Some g => ret (gasEstimate * Z.of_N g)
  | None => throw "Cannot mix BigInt and other types, use explicit conversions"
  end.

(** The [try] block of [executeProof]. *)
Definition executeProofTry (env : Env) (proof : Proof) : M ExecResult :=
  (* Mark as processed to avoid duplicates *)
  modify (set_processedProofs (fun ps => ps ∪ {[ intentHash proof ]})) >>
  modify (set_stats bumpProofsProcessed) >>
  (* Prepare transaction data *)
  let! proofStruct := buildProofStruct env proof in
  (* Estimate gas (mock for demo) *)
  let gasEstimate := 250000 in
  let gasWithBuffer := gasEstimate * (100 + GAS_BUFFER_PERCENT CONFIG) / 100 in
  print (GasEstimated gasEstimate gasWithBuffer) >>
  (* Get current gas price *)
  let! feeData := await (getFeeData env) in
  (* simulate transaction *)
  sleep 2000 >>
  let! t := reads clock in
  let txHash := mockTxHash env t in
  print (TxSubmitted txHash) >>
  sleep 1500 >>
  let! mockBlockNumber := await (getBlockNumber env) in
  print (TxConfirmed mockBlockNumber) >>
  (* Update stats *)
  modify (set_stats bumpSuccessfulExecutions) >>
  let! cost := gasCost gasEstimate feeData in
  modify (set_stats (addGasSpent cost)) >>
  let! saved := toBigInt (mevSaved proof) in
  modify (set_stats (addMevSaved saved)) >>
  ret (ExecSuccess txHash).

(** The [catch] block of [executeProof]. *)
Definition executeProofCatch (proof : Proof) (message : string) : M ExecResult :=
  print (ExecutionFailed proof message) >>
  modify (set_stats bumpFailedExecutions) >>
  modify (set_processedProofs (fun ps => ps ∖ {[ intentHash proof ]})) >>
  ret (ExecFailure message).

Definition executeProof (env : Env) (proof : Proof) : M ExecResult :=
  print (Executing proof) >>
  tryCatch (executeProofTry env proof) (executeProofCatch proof).

(* ------------------------------------------------------------------ *)
(** ** Queue processing *)
(* ------------------------------------------------------------------ *)

(** The body of the loop of [processQueue]. *)
Definition processQueued (env : Env) (proof : Proof) : M unit :=
  let! shouldExecute := determineOptimalTiming env proof in
  if (shouldExecute : bool) then
    executeProof env proof >> ret tt
  else
    modify (set_executionQueue (fun q => q ++ [proof])).

Definition processQueue (env : Env) : M unit :=
  let! queue := reads executionQueue in
  match queue with
  | [] => ret tt
  | _ =>
      print (ProcessingQueue (List.length queue)) >>
      let toProcess := queue in
      modify (set_executionQueue (fun _ => [])) >>
      forOf toProcess (processQueued env)
  end.

(* ------------------------------------------------------------------ *)
(** ** Proof fetching *)
(* ------------------------------------------------------------------ *)

(** The demo proof [mockFetchProofs] falls back on. *)
Definition demoProof (now : Z) : Proof := {|
  batchId := "0x" ++ JS.repeat "a" 16;
  timestamp := now;
  user := "0x742d35Cc6634C0532925a3b844Bc9e7595f8fE21";
  tokenIn := "0x036CbD53842c5426634e7929541eC2318f3dCF7e";
  tokenOut := "0x4200000000000000000000000000000000000006";
  amountIn := "1000000000";
  amountOut := "385000000000000000";
  clearingPrice := "2598420000";
  intentHash := "0x" ++ JS.repeat "b" 64;
  userSignature := "0x" ++ JS.repeat "c" 130;
  teeSignature := Some ("0x" ++ JS.repeat "d" 130)%string;
  teeSigner := TRUSTED_TEE_SIGNER CONFIG;
  merkleRoot := "0x" ++ JS.repeat "e" 64;
  mevSaved := "23470000"
|}.

Definition mockFetchProofs (env : Env) : M (list Proof) :=
  sleep 500 >>
  let! t := reads clock in
  match teeOutput env t with
  | Some executionProofs => ret executionProofs
  | None => ret [demoProof (dateNow env t)]
  end.

(** [p => !this.processedProofs.has(p.intentHash)] *)
Definition unprocessed (processed : gset string) (p : Proof) : bool :=
  negb (bool_decide (intentHash p ∈ processed)).

Definition fetchPendingProofs (env : Env) : M (list Proof) :=
  let! mockProofs := mockFetchProofs env in
  let! processed := reads processedProofs in
  ret (List.filter (unprocessed processed) mockProofs).

(* ------------------------------------------------------------------ *)
(** ** The monitoring loop *)
(* ------------------------------------------------------------------ *)

(** The body of the loop over the fetched proofs. *)
Definition processCandidate (env : Env) (proof : Proof) : M unit :=
  let! valid := validateProof env proof in
  if (valid : bool) then
    let! shouldExecute := determineOptimalTiming env proof in
    if (shouldExecute : bool) then
      executeProof env proof >> ret tt
    else
      modify (set_executionQueue (fun q => q ++ [proof])) >>
      print (Queued proof)
  else ret tt.

(** The [try] block of one iteration of [monitorAndExecute]. *)
Definition cycleTry (env : Env) : M unit :=
  print Scanning >>
  let! proofs := fetchPendingProofs env in
  (match proofs with
   | [] => ret tt
   | _ => print (Found (List.length proofs)) >> forOf proofs (processCandidate env)
   end) >>
  (* Process queued executions *)
  processQueue env >>
  (* Wait before next poll *)
  sleep (POLL_INTERVAL_MS CONFIG).

(** One iteration: the [try] block with its [catch]. *)
Definition cycle (env : Env) : M unit :=
  tryCatch (cycleTry env)
    (fun message => print (MonitorError message) >> sleep (POLL_INTERVAL_MS CONFIG * 2)).

(** [while (this.isRunning) { ... }], for at most [fuel] iterations. *)
Fixpoint monitorLoop (env : Env) (fuel : nat) : M unit :=
  match fuel with
  | O => ret tt
  | S k =>
      let! running := reads isRunning in
      if (running : bool) then cycle env >> monitorLoop env k else ret tt
  end.

Definition monitorAndExecute (env : Env) (fuel : nat) : M unit :=
  modify (set_isRunning true) >> monitorLoop env fuel.

(** [stop()] *)
Definition stop : M unit := modify (set_isRunning false).

(* ------------------------------------------------------------------ *)
(** ** Sample proofs, providers and agents *)
(* ------------------------------------------------------------------ *)

(** A reliable provider: the fee price follows [fee], block [t] is mined
    at instant [t], no TEE output file is present. *)
Definition steadyEnv (fee : nat -> N) : Env := {|
  getFeeData := fun t => Normal (mkFeeData (Some (fee t)));
  getBlockNumber := fun t => Normal (N.of_nat t);
  dateNow := fun t => 1700000000 + Z.of_nat t;
  teeOutput := fun _ => None;
  mathRandom16 := fun t i => (t + i)%nat
|}.

(** A provider whose fee read fails. *)
Definition feeDownEnv : Env := {|
  getFeeData := fun _ => Throw "network error";
  getBlockNumber := fun t => Normal (N.of_nat t);
  dateNow := fun t => 1700000000 + Z.of_nat t;
  teeOutput := fun _ => None;
  mathRandom16 := fun t i => (t + i)%nat
|}.

(** A reliable provider at 5 gwei whose TEE output is always [proofs]. *)
Definition fileEnv (proofs : list Proof) : Env := {|
  getFeeData := fun _ => Normal (mkFeeData (Some 5000000000%N));
  getBlockNumber := fun t => Normal (N.of_nat t);
  dateNow := fun t => 1700000000 + Z.of_nat t;
  teeOutput := fun _ => Some proofs;
  mathRandom16 := fun t i => (t + i)%nat
|}.

(** A provider that answers every read, at 75 gwei for the first
    instant and 5 gwei afterwards. *)
Definition coolingEnv : Env :=
  steadyEnv (fun t => if (t <? 1)%nat then 75000000000%N else 5000000000%N).

(** A proof signed by somebody else than the trusted TEE. *)
Definition forgedProof : Proof := {|
  batchId := "0x01";
  timestamp := 1700000000;
  user := "0x742d35Cc6634C0532925a3b844Bc9e7595f8fE21";
  tokenIn := "0x036CbD53842c5426634e7929541eC2318f3dCF7e";
  tokenOut := "0x4200000000000000000000000000000000000006";
  amountIn := "1000000000";
  amountOut := "385000000000000000";
  clearingPrice := "2598420000";
  intentHash := "0xf0";
  userSignature := "0x";
  teeSignature := Some ("0x" ++ JS.repeat "d" 130)%string;
  teeSigner := "0x0000000000000000000000000000000000000bad";
  merkleRoot := "0x";
  mevSaved := "0"
|}.

(** A well-signed proof whose advisory benefit is negative. *)
Definition lossProof : Proof := {|
  batchId := "0x02";
  timestamp := 1700000000;
  user := "0x742d35Cc6634C0532925a3b844Bc9e7595f8fE21";
  tokenIn := "0x036CbD53842c5426634e7929541eC2318f3dCF7e";
  tokenOut := "0x4200000000000000000000000000000000000006";
  amountIn := "1000000000";
  amountOut := "385000000000000000";
  clearingPrice := "2598420000";
  intentHash := "0xa1";
  userSignature := "0x";
  teeSignature := Some ("0x" ++ JS.repeat "d" 130)%string;
  teeSigner := TRUSTED_TEE_SIGNER CONFIG;
  merkleRoot := "0x";
  mevSaved := "-5"
|}.

(** An agent with two validated proofs waiting. *)
Definition waitingAgent : RelayerAgent :=
  set_executionQueue (fun _ => [demoProof 1700000000; lossProof]) newAgent.

(* ------------------------------------------------------------------ *)
(** ** Reasoning about methods *)
(* ------------------------------------------------------------------ *)

Ltac unfoldM :=
  unfold await, sleep, print, toBigInt in *;
  unfold bind, ret, throw, tryCatch, modify, reads, tick in *.

(** Symbolic runs leave the string primitives and the oracles folded. *)
Arguments JS.BigInt : simpl never.
Arguments JS.toLowerCase : simpl never.
Arguments JS.padEnd : simpl never.
Arguments JS.slice0 : simpl never.
Arguments mockTxHash : simpl never.
Arguments gasTooHigh : simpl never.
Arguments demoProof : simpl never.

(** Split on a test whose scrutinee holds no further test. *)
Ltac splitTest :=
  match goal with
  | |- context [match ?x with _ => _ end] =>
      lazymatch x with
      | context [match _ with _ => _ end] => fail
      | _ => destruct x eqn:?
      end
  | H : context [match ?x with _ => _ end] |- _ =>
      lazymatch x with
      | context [match _ with _ => _ end] => fail
      | _ => destruct x eqn:?
      end
  end.

(** Run a method symbolically: unfold the monad, split on every test. *)
Ltac runM := unfoldM; simpl in *; repeat (splitTest; simpl in *; try discriminate); try done.

(** A relation between the agent before and after a method that holds
    whatever the method does, normal return or throw. *)
Definition always {A} (R : relation RelayerAgent) (m : M A) : Prop :=
  forall s, R s (m s).2.

Section Always.
Context (R : relation RelayerAgent) `{!Reflexive R} `{!Transitive R}.

Lemma always_ret {A} (a : A) : always R (ret a).
Proof. intros s. reflexivity. Qed.

Lemma always_throw {A} e : always R (@throw A e).
Proof. intros s. reflexivity. Qed.

Lemma always_reads {A} (f : RelayerAgent -> A) : always R (reads f).
Proof. intros s. reflexivity. Qed.

Lemma always_bind {A B} (m : M A) (k : A -> M B) :
  always R m -> (forall a, always R (k a)) -> always R (bind m k).
Proof.
  intros Hm Hk s. unfold bind. specialize (Hm s).
  destruct (m s) as [[a|e] s1]; simpl in *; [|done].
  etransitivity; [exact Hm | apply Hk].
Qed.

Lemma always_tryCatch {A} (m : M A) h :
  always R m -> (forall e, always R (h e)) -> always R (tryCatch m h).
Proof.
  intros Hm Hh s. unfold tryCatch. specialize (Hm s).
  destruct (m s) as [[a|e] s1]; simpl in *; [done|].
  etransitivity; [exact Hm | apply Hh].
Qed.

Lemma always_forOf {X} (xs : list X) (body : X -> M unit) :
  (forall x, x ∈ xs -> always R (body x)) -> always R (forOf xs body).
Proof.
  induction xs as [|x xs IH]; intros H; simpl.
  - apply always_ret.
  - apply always_bind; [apply H; left | intros _; apply IH].
    intros y Hy. apply H. by right.
Qed.

Lemma always_toBigInt str : always R (toBigInt str).
Proof. unfold toBigInt. case_match; [apply always_ret | apply always_throw]. Qed.
End Always.

(** The lines a call printed: what [console] gained. *)
Definition printed (s s' : RelayerAgent) (out : list Line) : Prop :=
  console s' = console s ++ out.

(** The agent's own fields, leaving the clock and the console aside. *)
Definition sameAgent (s s' : RelayerAgent) : Prop :=
  processedProofs s' = processedProofs s /\
  isRunning s' = isRunning s /\
  executionQueue s' = executionQueue s /\
  stats s' = stats s.

#[local] Instance sameAgent_refl : Reflexive sameAgent.
Proof. by intros s. Qed.
#[local] Instance sameAgent_trans : Transitive sameAgent.
Proof. intros a b c (?&?&?&?) (?&?&?&?). repeat split; congruence. Qed.

(* ------------------------------------------------------------------ *)
(** ** The validator *)
(* ------------------------------------------------------------------ *)

Section Validator.
Variables (trusted : string) (now : Z) (proof : Proof).

(** The four rules, as the source tests them. *)
Definition signerTrusted : Prop :=
  JS.toLowerCase (teeSigner proof) = JS.toLowerCase trusted.
Definition fresh : Prop := now - timestamp proof <= 3600.
Definition signatureWellFormed : Prop :=
  exists sig, teeSignature proof = Some sig /\ (130 <= String.length sig)%nat.
Definition amountsPositive : Prop :=
  exists a b, JS.BigInt (amountIn proof) = Some a /\
              JS.BigInt (amountOut proof) = Some b /\ 0 < a /\ 0 < b.

(** The amounts are numbers and one of them is not positive. *)
Definition amountsNotPositive : Prop :=
  exists a b, JS.BigInt (amountIn proof) = Some a /\
              JS.BigInt (amountOut proof) = Some b /\ (a <= 0 \/ b <= 0).

Definition rejects (r : RejectReason) (s : RelayerAgent) : Prop :=
  validateProofAt trusted now proof s
  = (Normal false, set_console (fun c => c ++ [Validating proof; Rejected proof r]) s).

Definition accepts (s : RelayerAgent) : Prop :=
  validateProofAt trusted now proof s
  = (Normal true, set_console (fun c => c ++ [Validating proof; Validated proof]) s).

Lemma signerTrusted_eqb :
  String.eqb (JS.toLowerCase (teeSigner proof)) (JS.toLowerCase trusted) = true
  <-> signerTrusted.
Proof. apply String.eqb_eq. Qed.

Lemma console_two s a b :
  set_console (fun c => c ++ [b]) (set_console (fun c => c ++ [a]) s)
  = set_console (fun c => c ++ [a; b]) s.
Proof. destruct s. simpl. by rewrite <- app_assoc. Qed.

Lemma rejects_signer s : ~ signerTrusted -> rejects UntrustedSigner s.
Proof.
  intros H. unfold rejects, validateProofAt.
  destruct (String.eqb _ _) eqn:E; [by apply signerTrusted_eqb in E|].
  unfoldM. simpl. by rewrite console_two.
Qed.

Lemma rejects_expired s : signerTrusted -> ~ fresh -> rejects Expired s.
Proof.
  intros H1 H2. unfold rejects, validateProofAt.
  apply signerTrusted_eqb in H1. rewrite H1. simpl.
  unfold fresh in H2. destruct (Z.gtb_spec (now - timestamp proof) 3600); [|lia].
  unfoldM. simpl. by rewrite console_two.
Qed.

Lemma rejects_signature s :
  signerTrusted -> fresh -> ~ signatureWellFormed -> rejects MalformedSignature s.
Proof.
  intros H1 H2 H3. unfold rejects, validateProofAt.
  apply signerTrusted_eqb in H1. rewrite H1. simpl.
  unfold fresh in H2. destruct (Z.gtb_spec (now - timestamp proof) 3600); [lia|].
  assert (match teeSignature proof with
          | Some sig => (String.length sig <? 130)%nat | None => true end = true) as ->.
  { destruct (teeSignature proof) as [sig|] eqn:E; [|done].
    apply Nat.ltb_lt. destruct (decide (130 <= String.length sig)%nat); [|lia].
    exfalso. apply H3. by exists sig. }
  unfoldM. simpl. by rewrite console_two.
Qed.

Lemma passes_three s :
  signerTrusted -> fresh -> signatureWellFormed ->
  validateProofAt trusted now proof s
  = (let! amountIn := toBigInt (amountIn proof) in
     let! amountOut := toBigInt (amountOut proof) in
     if (amountIn <=? 0) || (amountOut <=? 0) then
       print (Rejected proof InvalidAmounts) >> ret false
     else
       print (Validated proof) >> ret true)
      (set_console (fun c => c ++ [Validating proof]) s).
Proof.
  intros H1 H2 (sig & H3 & H4). unfold validateProofAt.
  apply signerTrusted_eqb in H1. rewrite H1. simpl.
  unfold fresh in H2. destruct (Z.gtb_spec (now - timestamp proof) 3600); [lia|].
  rewrite H3. destruct (Nat.ltb_spec (String.length sig) 130); [lia|].
  reflexivity.
Qed.

Lemma rejects_amounts s :
  signerTrusted -> fresh -> signatureWellFormed -> amountsNotPositive ->
  rejects InvalidAmounts s.
Proof.
  intros H1 H2 H3 (a & b & Ha & Hb & Hab). unfold rejects.
  rewrite passes_three by done. unfoldM. rewrite Ha, Hb. simpl.
  assert ((a <=? 0) || (b <=? 0) = true) as ->.
  { apply orb_true_iff. destruct Hab; [left|right]; by apply Z.leb_le. }
  simpl. by rewrite console_two.
Qed.

Lemma accepts_all s :
  signerTrusted -> fresh -> signatureWellFormed -> amountsPositive -> accepts s.
Proof.
  intros H1 H2 H3 (a & b & Ha & Hb & Ha0 & Hb0). unfold accepts.
  rewrite passes_three by done. unfoldM. rewrite Ha, Hb. simpl.
  assert ((a <=? 0) || (b <=? 0) = false) as ->.
  { apply orb_false_iff. split; apply Z.leb_gt; lia. }
  simpl. by rewrite console_two.
Qed.

Lemma accepted_inv s :
  (validateProofAt trusted now proof s).1 = Normal true ->
  signerTrusted /\ fresh /\ signatureWellFormed /\ amountsPositive.
Proof.
  unfold validateProofAt. intros H.
  destruct (String.eqb _ _) eqn:E1; simpl in H; [|by runM].
  apply signerTrusted_eqb in E1.
  destruct (Z.gtb_spec (now - timestamp proof) 3600) as [E2|E2]; [by runM|].
  destruct (teeSignature proof) as [sig|] eqn:E3; [|by runM].
  destruct (Nat.ltb_spec (String.length sig) 130) as [E4|E4]; [by runM|].
  unfoldM. simpl in H.
  destruct (JS.BigInt (amountIn proof)) as [a|] eqn:Ea; simpl in H; [|done].
  destruct (JS.BigInt (amountOut proof)) as [b|] eqn:Eb; simpl in H; [|done].
  destruct (Z.leb_spec a 0); simpl in H; [done|].
  destruct (Z.leb_spec b 0); simpl in H; [done|].
  repeat split; [done.. | by exists sig | by exists a, b].
Qed.
End Validator.

(** The outcome and the lines printed do not depend on the agent, and the
    agent's fields are left alone. *)
Lemma validateProofAt_pure trusted now proof :
  exists outcome out, forall s,
    validateProofAt trusted now proof s
    = (outcome, set_console (fun c => c ++ Validating proof :: out) s).
Proof.
  unfold validateProofAt.
  destruct (String.eqb _ _); simpl.
  2:{ eexists _, _. intros s. unfoldM. simpl. by rewrite console_two. }
  destruct (_ >? _).
  { eexists _, _. intros s. unfoldM. simpl. by rewrite console_two. }
  destruct (match teeSignature proof with Some _ => _ | None => _ end).
  { eexists _, _. intros s. unfoldM. simpl. by rewrite console_two. }
  unfoldM. simpl.
  destruct (JS.BigInt (amountIn proof)) as [a|]; simpl; [|by eexists _, []].
  destruct (JS.BigInt (amountOut proof)) as [b|]; simpl; [|by eexists _, []].
  destruct ((a <=? 0) || (b <=? 0)); simpl; eexists _, _; intros s;
    by rewrite console_two.
Qed.

Lemma validateProof_at env proof s :
  validateProof env proof s
  = validateProofAt (TRUSTED_TEE_SIGNER CONFIG) (dateNow env (clock s)) proof s.
Proof. reflexivity. Qed.

(** C2. [validateProof] is a function of the proof, the trusted signer
    and the current time alone: its outcome is the same from any agent
    and it leaves the agent's fields alone.  It accepts exactly the proofs
    whose signer equals the trusted one up to case, whose age is at most
    3600 seconds, whose signature is present with length at least 130 and
    whose two amounts are positive; the rules are tried in this order and
    the first that fails is the one reported. *)
Theorem validateProof_rules (trusted : string) (now : Z) (proof : Proof) (s : RelayerAgent) :
  ((validateProofAt trusted now proof s).1 = Normal true <->
     signerTrusted trusted proof /\ fresh now proof /\
     signatureWellFormed proof /\ amountsPositive proof) /\
  (~ signerTrusted trusted proof -> rejects trusted now proof UntrustedSigner s) /\
  (signerTrusted trusted proof -> ~ fresh now proof ->
     rejects trusted now proof Expired s) /\
  (signerTrusted trusted proof -> fresh now proof -> ~ signatureWellFormed proof ->
     rejects trusted now proof MalformedSignature s) /\
  (signerTrusted trusted proof -> fresh now proof -> signatureWellFormed proof ->
     amountsNotPositive proof -> rejects trusted now proof InvalidAmounts s) /\
  (signerTrusted trusted proof -> fresh now proof -> signatureWellFormed proof ->
     amountsPositive proof -> accepts trusted now proof s) /\
  (forall s2, (validateProofAt trusted now proof s2).1
              = (validateProofAt trusted now proof s).1) /\
  sameAgent s (validateProofAt trusted now proof s).2 /\
  clock (validateProofAt trusted now proof s).2 = clock s /\
  (forall env,
     validateProof env proof s
     = validateProofAt (TRUSTED_TEE_SIGNER CONFIG) (dateNow env (clock s)) proof s).
Proof.
  split; [split; [apply accepted_inv|]|].
  { intros (?&?&?&?). by rewrite accepts_all. }
  split; [apply rejects_signer|].
  split; [apply rejects_expired|].
  split; [apply rejects_signature|].
  split; [apply rejects_amounts|].
  split; [apply accepts_all|].
  destruct (validateProofAt_pure trusted now proof) as (outcome & out & H).
  split; [intros s2; by rewrite !H|].
  rewrite H. by destruct s.
Qed.

(** Spec scenarios 1 to 3: the demo proof, ten seconds old, is accepted;
    with another signer it is rejected as untrusted; 4000 seconds old it
    is rejected as expired. *)
Example validateProof_scenarios :
  accepts (TRUSTED_TEE_SIGNER CONFIG) 1700000010 (demoProof 1700000000) newAgent /\
  rejects (TRUSTED_TEE_SIGNER CONFIG) 1700000000 forgedProof UntrustedSigner newAgent /\
  rejects (TRUSTED_TEE_SIGNER CONFIG) 1700004000 (demoProof 1700000000) Expired newAgent.
Proof. repeat split. Qed.

Ltac notExpired :=
  simpl; rewrite ?not_elem_of_cons; repeat split; try discriminate; apply not_elem_of_nil.

(** C10. The freshness rule bounds the age from above only: a proof
    dated at or after the current time, however far ahead, passes it; it
    is never reported as expired, and it is accepted when the other three
    rules hold. *)
Theorem validateProof_future_dated
    (trusted : string) (now : Z) (proof : Proof) (s : RelayerAgent) :
  now <= timestamp proof ->
  fresh now proof /\
  (forall out, printed s (validateProofAt trusted now proof s).2 out ->
               Rejected proof Expired ∉ out) /\
  (signerTrusted trusted proof -> signatureWellFormed proof ->
   amountsPositive proof -> accepts trusted now proof s).
Proof.
  intros Hfut.
  assert (fresh now proof) as Hfresh by (unfold fresh; lia).
  split; [done|]. split; [|intros; by apply accepts_all].
  intros out Hout. destruct s as [processed running queue st t lines].
  assert (forall l, lines ++ l = lines ++ out -> l = out) as Hinv.
  { intros l. apply app_inv_head. }
  unfold printed, validateProofAt in Hout. unfold fresh in Hfresh.
  destruct (String.eqb _ _); simpl in Hout.
  2:{ revert Hout. runM. rewrite <- ?app_assoc. intros Hout.
      apply Hinv in Hout as <-. notExpired. }
  destruct (Z.gtb_spec (now - timestamp proof) 3600); [lia|].
  revert Hout. runM; rewrite <- ?app_assoc; intros Hout;
    apply Hinv in Hout as <-; notExpired.
Qed.

(** A proof dated a thousand years ahead is accepted. *)
Lemma validateProof_future_dated_witness :
  1700000000 <= timestamp (demoProof 33257000000) /\
  accepts (TRUSTED_TEE_SIGNER CONFIG) 1700000000 (demoProof 33257000000) newAgent.
Proof.
  split; [simpl; lia|].
  apply (validateProof_future_dated (TRUSTED_TEE_SIGNER CONFIG) 1700000000
           (demoProof 33257000000) newAgent); [simpl; lia | reflexivity | |].
  - exists ("0x" ++ JS.repeat "d" 130)%string. split; [reflexivity | simpl; lia].
  - exists 1000000000, 385000000000000000. repeat split; reflexivity.
Defined.

(* ------------------------------------------------------------------ *)
(** ** The timing advisor *)
(* ------------------------------------------------------------------ *)

(** The fee price, in gwei, is above the ceiling. *)
Definition exceedsCeiling (feeData : FeeData) : Prop :=
  (inject_Z (MAX_GAS_PRICE_GWEI CONFIG) < gasPriceGwei feeData)%Q.

Lemma gasTooHigh_true feeData : gasTooHigh feeData = true <-> exceedsCeiling feeData.
Proof.
  unfold gasTooHigh, exceedsCeiling. rewrite negb_true_iff.
  split.
  - intros H. apply Qnot_le_lt. intros Hle. apply Qle_bool_iff in Hle. congruence.
  - intros H. destruct (Qle_bool _ _) eqn:E; [|done].
    apply Qle_bool_iff in E. by apply Qlt_not_le in H.
Qed.

Lemma gasTooHigh_false feeData : gasTooHigh feeData = false <-> ~ exceedsCeiling feeData.
Proof.
  rewrite <- gasTooHigh_true. destruct (gasTooHigh feeData); split; try done.
Qed.

(** In wei: above fifty thousand million. *)
Lemma exceedsCeiling_wei feeData :
  exceedsCeiling feeData <->
  exists g, gasPrice feeData = Some g /\ (50000000000 < g)%N.
Proof.
  unfold exceedsCeiling, gasPriceGwei, Qlt. simpl.
  destruct (gasPrice feeData) as [g|]; simpl.
  - split; [intros H; exists g; split; [done|lia] | intros (g' & [= <-] & H); lia].
  - split; [lia | by intros (g & ? & _)].
Qed.

Definition riskOf (a : Z) : MevRisk := if a >? 10000 * 10 ^ 6 then MEDIUM else LOW.

Lemma assessMEVRisk_run proof a s :
  JS.BigInt (amountIn proof) = Some a ->
  assessMEVRisk proof s = (Normal (riskOf a), s).
Proof.
  intros H. unfold assessMEVRisk, riskOf, toBigInt. rewrite H. unfoldM.
  by destruct (a >? 10000 * 10 ^ 6).
Qed.

Lemma assessMEVRisk_never_high proof s : (assessMEVRisk proof s).1 <> Normal HIGH.
Proof. unfold assessMEVRisk. runM. Qed.

Lemma timing_defers env proof s feeData :
  getFeeData env (clock s) = Normal feeData ->
  gasTooHigh feeData = true ->
  determineOptimalTiming env proof s
  = (Normal false,
     mkAgent (processedProofs s) (isRunning s) (executionQueue s) (stats s)
             (S (clock s)) (console s ++ [Analyzing proof; GasTooHigh proof])).
Proof.
  intros Hfee Hhigh. destruct s. unfold determineOptimalTiming. unfoldM. simpl in *.
  rewrite Hfee, Hhigh. simpl. by rewrite <- app_assoc.
Qed.

Lemma timing_confirms env proof s feeData a block :
  getFeeData env (clock s) = Normal feeData ->
  gasTooHigh feeData = false ->
  JS.BigInt (amountIn proof) = Some a ->
  getBlockNumber env (S (clock s)) = Normal block ->
  determineOptimalTiming env proof s
  = (Normal true,
     mkAgent (processedProofs s) (isRunning s) (executionQueue s) (stats s)
             (S (S (clock s)))
             (console s ++ [Analyzing proof; GasAcceptable; RiskAssessed (riskOf a);
                            CurrentBlock block; TimingConfirmed proof])).
Proof.
  intros Hfee Hlow Ha Hblock. destruct s.
  unfold determineOptimalTiming, assessMEVRisk. unfoldM. simpl in *.
  rewrite Hfee, Hlow, Ha. simpl. unfold riskOf.
  destruct (a >? 10000 * 10 ^ 6); simpl; rewrite Hblock; simpl;
    by rewrite <- !app_assoc.
Qed.

(** C5. With the fee price read from the provider: above the ceiling of
    50 gwei the timing advisor answers [false] for every proof; the risk
    classification is MEDIUM above 10,000 * 10^6 and LOW otherwise, never
    HIGH; and when the amount is a number and the block height is read,
    the answer is [true] exactly when the fee price is not above the
    ceiling. *)
Theorem determineOptimalTiming_gates (env : Env) (proof : Proof) (s : RelayerAgent)
    (feeData : FeeData) :
  getFeeData env (clock s) = Normal feeData ->
  (exceedsCeiling feeData -> (determineOptimalTiming env proof s).1 = Normal false) /\
  (assessMEVRisk proof s).1 <> Normal HIGH /\
  (forall a, JS.BigInt (amountIn proof) = Some a ->
     (10000 * 10 ^ 6 < a -> assessMEVRisk proof s = (Normal MEDIUM, s)) /\
     (a <= 10000 * 10 ^ 6 -> assessMEVRisk proof s = (Normal LOW, s))) /\
  (forall a block,
     JS.BigInt (amountIn proof) = Some a ->
     getBlockNumber env (S (clock s)) = Normal block ->
     ((determineOptimalTiming env proof s).1 = Normal true <-> ~ exceedsCeiling feeData) /\
     ((determineOptimalTiming env proof s).1 = Normal false <-> exceedsCeiling feeData)).
Proof.
  intros Hfee. split; [|split; [apply assessMEVRisk_never_high|split]].
  - intros H. apply gasTooHigh_true in H. by rewrite (timing_defers _ _ _ _ Hfee H).
  - intros a Ha. rewrite (assessMEVRisk_run _ _ _ Ha). unfold riskOf.
    split; intros H; destruct (Z.gtb_spec a (10000 * 10 ^ 6)); done || lia.
  - intros a block Ha Hblock.
    destruct (gasTooHigh feeData) eqn:E.
    + rewrite (timing_defers _ _ _ _ Hfee E). apply gasTooHigh_true in E. simpl.
      split; split; done.
    + rewrite (timing_confirms _ _ _ _ _ _ Hfee E Ha Hblock).
      apply gasTooHigh_false in E. simpl. split; split; done.
Qed.

(** At 75 gwei the demo proof is deferred; at 5 gwei it would not be. *)
Lemma determineOptimalTiming_gates_witness :
  (determineOptimalTiming (steadyEnv (fun _ => 75000000000%N))
     (demoProof 1700000000) newAgent).1 = Normal false.
Proof.
  apply (determineOptimalTiming_gates (steadyEnv (fun _ => 75000000000%N))
           (demoProof 1700000000) newAgent (mkFeeData (Some 75000000000%N)));
    [reflexivity|].
  apply exceedsCeiling_wei. exists 75000000000%N. split; [reflexivity | lia].
Defined.

(* ------------------------------------------------------------------ *)
(** ** The execution engine *)
(* ------------------------------------------------------------------ *)

(** Run [executeProof] symbolically, one goal per path through it. *)
Ltac runExecute s :=
  destruct s as [?processed ?running ?queue [?seen ?ok ?failed ?gas ?mev] ?t ?lines];
  unfold executeProof, executeProofTry, executeProofCatch, buildProofStruct, gasCost;
  runM.

(** The three [BigInt] conversions of the transaction data succeed. *)
Definition prepares (proof : Proof) : Prop :=
  is_Some (JS.BigInt (amountIn proof)) /\
  is_Some (JS.BigInt (amountOut proof)) /\
  is_Some (JS.BigInt (clearingPrice proof)).

(** The fee read that precedes the submission throws. *)
Definition submissionThrows (env : Env) (s : RelayerAgent) (e : string) : Prop :=
  getFeeData env (clock s) = Throw e.

(** The submission goes through and the confirmation read throws. *)
Definition confirmationThrows (env : Env) (s : RelayerAgent) (e : string) : Prop :=
  (exists feeData, getFeeData env (clock s) = Normal feeData) /\
  getBlockNumber env (3 + clock s) = Throw e.

(** [executeProof] never throws: its [catch] turns every error into a
    failure result. *)
Lemma executeProof_returns env proof s :
  exists result, (executeProof env proof s).1 = Normal result.
Proof. runExecute s; eauto. Qed.

(** C4. When the submission or the confirmation step of [executeProof]
    throws, the call returns a failure carrying the error message, the
    identifier is not in [processedProofs] afterwards, [failedExecutions]
    has grown by exactly one, and the success counter, the fee total and
    the benefit total are as before. *)
Theorem executeProof_failure_rolls_back
    (env : Env) (proof : Proof) (s : RelayerAgent) (e : string) :
  prepares proof ->
  (submissionThrows env s e \/ confirmationThrows env s e) ->
  let s' := (executeProof env proof s).2 in
  (executeProof env proof s).1 = Normal (ExecFailure e) /\
  (intentHash proof ∉ processedProofs s') /\
  failedExecutions (stats s') = S (failedExecutions (stats s)) /\
  successfulExecutions (stats s') = successfulExecutions (stats s) /\
  totalGasSpent (stats s') = totalGasSpent (stats s) /\
  totalMevSaved (stats s') = totalMevSaved (stats s) /\
  ExecutionFailed proof e ∈ console s'.
Proof.
  intros ([a Ha] & [b Hb] & [c Hc]) H.
  unfold submissionThrows, confirmationThrows in H.
  assert (forall (X : gset string) h, h ∉ (X ∪ {[h]}) ∖ {[h]}) as Hout.
  { intros X h [_ Hn]%elem_of_difference. apply Hn. by apply elem_of_singleton. }
  assert (forall (l : list Line) x, x ∈ l ++ [x]) as Hlast.
  { intros l x. apply elem_of_app. right. by left. }
  destruct H as [H | [[feeData Hfee] H]]; runExecute s; try congruence.
  all: repeat match goal with
         | H1 : ?x = Normal _, H2 : ?x = Throw _ |- _ => rewrite H1 in H2; discriminate
         | H1 : ?x = Throw _, H2 : ?x = Throw _ |- _ => rewrite H1 in H2; injection H2 as <-
         end.
  all: try match goal with H : Throw _ = Throw _ |- _ => injection H as -> end.
  all: repeat split; auto.
Qed.

Lemma executeProof_failure_rolls_back_witness :
  let s' := (executeProof feeDownEnv (demoProof 1700000000) newAgent).2 in
  (executeProof feeDownEnv (demoProof 1700000000) newAgent).1
    = Normal (ExecFailure "network error") /\
  failedExecutions (stats s') = 1%nat /\
  successfulExecutions (stats s') = 0%nat.
Proof.
  destruct (executeProof_failure_rolls_back feeDownEnv (demoProof 1700000000)
              newAgent "network error") as (H1 & _ & H2 & H3 & _).
  - repeat split; eexists; reflexivity.
  - left. reflexivity.
  - lazy zeta. split; [exact H1 | split; [exact H2 | exact H3]].
Defined.

(* ------------------------------------------------------------------ *)
(** ** Relations kept by every method *)
(* ------------------------------------------------------------------ *)

Section AlwaysPrimitives.
Context (R : relation RelayerAgent) `{!Reflexive R} `{!Transitive R}.

Lemma always_modify f : (forall s, R s (f s)) -> always R (modify f).
Proof. intros H s. apply H. Qed.

Lemma always_print l :
  (forall s, R s (set_console (fun c => c ++ [l]) s)) -> always R (print l).
Proof. apply always_modify. Qed.

Lemma always_tick : (forall s, R s (set_clock S s)) -> always R tick.
Proof. intros H s. apply H. Qed.

Lemma always_sleep ms : (forall s, R s (set_clock S s)) -> always R (sleep ms).
Proof.
  intros H. unfold sleep. apply always_bind; [done | by apply always_tick |].
  intros _. by apply always_ret.
Qed.

Lemma always_await {A} (oracle : nat -> completion A) :
  (forall s, R s (set_clock S s)) -> always R (await oracle).
Proof.
  intros H. unfold await. apply always_bind; [done | by apply always_tick |].
  intros t. destruct (oracle t); [by apply always_ret | by apply always_throw].
Qed.

End AlwaysPrimitives.

(** Break a method into its primitives; what is left are the goals about
    single writes to the agent. *)
Ltac alwaysStep :=
  lazymatch goal with
  | |- always _ (ret _) => apply always_ret; try apply _
  | |- always _ (throw _) => apply always_throw; try apply _
  | |- always _ (reads _) => apply always_reads; try apply _
  | |- always _ (toBigInt _) => apply always_toBigInt; try apply _
  | |- always _ (bind _ _) => apply always_bind; [try apply _ | | intros ?]
  | |- always _ (tryCatch _ _) => apply always_tryCatch; [try apply _ | | intros ?]
  | |- always _ (print _) => apply always_print
  | |- always _ (sleep _) => apply always_sleep; [try apply _ ..|]
  | |- always _ (await _) => apply always_await; [try apply _ ..|]
  | |- always _ (modify _) => apply always_modify
  | |- always _ tick => apply always_tick
  | |- always _ (if ?b then _ else _) => destruct b
  | |- always _ (match ?x with _ => _ end) => destruct x
  end.

Ltac alwaysM := repeat alwaysStep.

(** *** Every call of [executeProof] is counted *)

Definition execution (l : Line) : option Proof :=
  match l with Executing p => Some p | _ => None end.

(** The proofs [executeProof] was called on, in call order. *)
Definition executions (out : list Line) : list Proof := omap execution out.

Definition validation (l : Line) : option Proof :=
  match l with Validating p => Some p | _ => None end.

(** The proofs [validateProof] was called on, in call order. *)
Definition validations (out : list Line) : list Proof := omap validation out.

Definition timingVerdict (l : Line) : option (Proof * bool) :=
  match l with
  | GasTooHigh p | HighRisk p => Some (p, false)
  | TimingConfirmed p => Some (p, true)
  | _ => None
  end.

(** The answers of [determineOptimalTiming], in call order. *)
Definition timingVerdicts (out : list Line) : list (Proof * bool) :=
  omap timingVerdict out.

(** [proofsProcessed] has grown by the number of calls of
    [executeProof]. *)
Definition countsExecutions (s s' : RelayerAgent) : Prop :=
  exists out,
    printed s s' out /\
    proofsProcessed (stats s')
    = (proofsProcessed (stats s) + List.length (executions out))%nat.

#[local] Instance countsExecutions_refl : Reflexive countsExecutions.
Proof. intros s. exists []. unfold printed. rewrite app_nil_r. simpl. split; [done|lia]. Qed.

#[local] Instance countsExecutions_trans : Transitive countsExecutions.
Proof.
  intros a b c (o1 & H1 & E1) (o2 & H2 & E2). exists (o1 ++ o2).
  unfold printed, executions in *. rewrite H2, H1, app_assoc. split; [done|].
  rewrite omap_app, length_app. lia.
Qed.

Ltac countsLeaf :=
  intros [? ? ? [? ? ? ? ?] ? ?]; simpl;
  first [ by eexists [_]; split; [reflexivity | simpl; lia]
        | by exists []; unfold printed; simpl; rewrite app_nil_r; split; [done | lia] ].

Lemma executeProof_countsExecutions env proof : always countsExecutions (executeProof env proof).
Proof.
  intros s. runExecute s.
  all: eexists; unfold printed; simpl; rewrite <- !app_assoc; split;
    [reflexivity | simpl; lia].
Qed.

Lemma determineOptimalTiming_countsExecutions env proof :
  always countsExecutions (determineOptimalTiming env proof).
Proof. unfold determineOptimalTiming, assessMEVRisk. alwaysM; countsLeaf. Qed.

Lemma validateProof_countsExecutions env proof :
  always countsExecutions (validateProof env proof).
Proof. unfold validateProof, validateProofAt. alwaysM; countsLeaf. Qed.

(** *** From the engine, the advisor and the validator to the loop *)

(** What the source returns at a poll that starts in [s]. *)
Definition candidates (env : Env) (s : RelayerAgent) : list Proof :=
  match teeOutput env (S (clock s)) with
  | Some executionProofs => executionProofs
  | None => [demoProof (dateNow env (S (clock s)))]
  end.

(** The candidates that pass the filter of [fetchPendingProofs]. *)
Definition fetched (env : Env) (s : RelayerAgent) : list Proof :=
  List.filter (unprocessed (processedProofs s)) (candidates env s).

Lemma fetchPendingProofs_run env s :
  fetchPendingProofs env s = (Normal (fetched env s), set_clock S s).
Proof.
  destruct s. unfold fetchPendingProofs, mockFetchProofs, fetched, candidates.
  unfoldM. simpl. by destruct (teeOutput env _).
Qed.

(** The lines printed by the loop itself. *)
Definition loopLine (l : Line) : bool :=
  match l with
  | Scanning | Found _ | Queued _ | ProcessingQueue _ | MonitorError _ => true
  | _ => false
  end.

Section Orchestration.
Context (R : relation RelayerAgent) `{!Reflexive R} `{!Transitive R}.
Context (env : Env).

(** [candidateOk] is asked of the proofs that are validated, [proofOk] of
    the proofs that are timed, queued or executed. *)
Context (candidateOk proofOk : Proof -> Prop).

Definition queueOk (s : RelayerAgent) : Prop := Forall proofOk (executionQueue s).

Definition admissible (p : Proof) : Prop := candidateOk p /\ proofOk p.

Hypothesis R_print : forall l s, loopLine l = true -> R s (set_console (fun c => c ++ [l]) s).
Hypothesis R_tick : forall s, R s (set_clock S s).
Hypothesis R_reset : forall s, R s (set_executionQueue (fun _ => []) s).
Hypothesis R_push :
  forall p s, proofOk p -> R s (set_executionQueue (fun q => q ++ [p]) s).
Hypothesis R_running : forall b s, R s (set_isRunning b s).
Hypothesis R_validate : forall p, candidateOk p -> always R (validateProof env p).
Hypothesis R_timing : forall p, proofOk p -> always R (determineOptimalTiming env p).
Hypothesis R_execute : forall p, proofOk p -> always R (executeProof env p).
Hypothesis R_queueOk : forall s s', queueOk s -> R s s' -> queueOk s'.

(** [R] holds across the method from every agent whose queue is in
    order. *)
Definition keeps {A} (m : M A) : Prop := forall s, queueOk s -> R s (m s).2.

Lemma keeps_always {A} (m : M A) : always R m -> keeps m.
Proof. intros H s _. apply H. Qed.

Lemma keeps_bind {A B} (m : M A) (k : A -> M B) :
  keeps m -> (forall a, keeps (k a)) -> keeps (bind m k).
Proof.
  intros Hm Hk s Hs. unfold bind. specialize (Hm s Hs).
  destruct (m s) as [[a|e] s1]; simpl in *; [|done].
  etransitivity; [exact Hm | apply Hk; eauto].
Qed.

Lemma processQueued_always p : proofOk p -> always R (processQueued env p).
Proof. intros Hp. unfold processQueued. alwaysM; auto. Qed.

Lemma processQueue_keeps : keeps (processQueue env).
Proof.
  intros s Hs. destruct s as [processed running queue st t lines].
  unfold queueOk in Hs. simpl in Hs.
  destruct queue as [|p queue]; [reflexivity|].
  set (s0 := mkAgent processed running (p :: queue) st t lines).
  assert (always R (forOf (p :: queue) (processQueued env))) as Hloop.
  { apply always_forOf; [done..|]. intros x Hx. apply processQueued_always.
    eapply Forall_forall; [exact Hs | done]. }
  transitivity (set_console (fun c => c ++ [ProcessingQueue (List.length (p :: queue))]) s0);
    [by apply R_print|].
  etransitivity; [apply R_reset|]. apply Hloop.
Qed.

Lemma processCandidate_always p : admissible p -> always R (processCandidate env p).
Proof. intros [Hc Hp]. unfold processCandidate. alwaysM; auto. Qed.

Lemma cycleTry_keeps s :
  queueOk s -> Forall admissible (fetched env s) -> R s (cycleTry env s).2.
Proof.
  intros Hs Hok. unfold cycleTry.
  set (s1 := set_console (fun c => c ++ [Scanning]) s).
  assert (fetched env s1 = fetched env s) as Hsame by by destruct s.
  assert (R s s1) as H1 by by apply R_print.
  transitivity s1; [done|].
  change (R s1 ((let! proofs := fetchPendingProofs env in
                 (match proofs with
                  | [] => ret tt
                  | _ => print (Found (List.length proofs)) >>
                         forOf proofs (processCandidate env)
                  end) >> processQueue env >> sleep (POLL_INTERVAL_MS CONFIG)) s1).2).
  unfold bind at 1. rewrite fetchPendingProofs_run, Hsame.
  transitivity (set_clock S s1); [apply R_tick|].
  apply keeps_bind; [| |eauto].
  - apply keeps_always.
    destruct (fetched env s) eqn:E; [by apply always_ret|]. rewrite <- E.
    apply always_bind; [done| |intros _].
    + apply always_print. intros. by apply R_print.
    + apply always_forOf; [done..|]. intros c Hc. apply processCandidate_always.
      rewrite E in Hc. eapply Forall_forall; [exact Hok | done].
  - intros _. apply keeps_bind; [apply processQueue_keeps|].
    intros _. apply keeps_always. by apply always_sleep.
Qed.

Lemma cycle_keeps s :
  queueOk s -> Forall admissible (fetched env s) -> R s (cycle env s).2.
Proof.
  intros Hs Hok. unfold cycle, tryCatch. pose proof (cycleTry_keeps s Hs Hok) as H.
  destruct (cycleTry env s) as [[[]|e] s1]; simpl in *; [done|].
  etransitivity; [exact H|].
  assert (always R (print (MonitorError e) >> sleep (POLL_INTERVAL_MS CONFIG * 2)))
    as Hcatch by (alwaysM; auto).
  apply Hcatch.
Qed.

Hypothesis sourceOk : forall s, Forall admissible (fetched env s).

Lemma monitorLoop_keeps fuel : keeps (monitorLoop env fuel).
Proof.
  induction fuel as [|fuel IH]; intros s Hs; simpl; [reflexivity|].
  unfold bind at 1, reads. simpl. destruct (isRunning s); [|reflexivity].
  apply keeps_bind; [|by intros _|done].
  intros s0 Hs0. by apply cycle_keeps.
Qed.

Lemma monitorAndExecute_keeps fuel : keeps (monitorAndExecute env fuel).
Proof.
  unfold monitorAndExecute. apply keeps_bind.
  - apply keeps_always, always_modify. intros. apply R_running.
  - intros _. apply monitorLoop_keeps.
Qed.
End Orchestration.

Definition anyProof (p : Proof) : Prop := True.

Lemma anyProof_all (l : list Proof) : Forall anyProof l.
Proof. by apply Forall_forall. Qed.

Lemma anyProof_admissible (l : list Proof) : Forall (admissible anyProof anyProof) l.
Proof. by apply Forall_forall. Qed.

(* ------------------------------------------------------------------ *)
(** ** The candidates counter *)
(* ------------------------------------------------------------------ *)

Lemma countsExecutions_loop env fuel s :
  countsExecutions s (monitorAndExecute env fuel s).2.
Proof.
  apply (monitorAndExecute_keeps countsExecutions env anyProof anyProof);
    try apply _; try (intros; apply anyProof_all); try (intros; apply anyProof_admissible).
  - intros l s0 Hl. destruct s0 as [? ? ? [? ? ? ? ?] ? ?]. exists [l]. split; [done|].
    destruct l; try discriminate; simpl; lia.
  - countsLeaf.
  - countsLeaf.
  - intros p. countsLeaf.
  - intros b. countsLeaf.
  - intros. apply validateProof_countsExecutions.
  - intros. apply determineOptimalTiming_countsExecutions.
  - intros. apply executeProof_countsExecutions.
Qed.

Lemma executeProof_bumps_proofsProcessed env proof s :
  proofsProcessed (stats (executeProof env proof s).2) = S (proofsProcessed (stats s)).
Proof. runExecute s. Qed.

(** C9, as stated, fails: a candidate that is rejected, and one that is
    deferred, have been seen by the agent and [proofsProcessed] is still
    0. *)
Lemma proofsProcessed_skips_rejected_and_deferred :
  (let s' := (cycle (fileEnv [forgedProof]) newAgent).2 in
   candidates (fileEnv [forgedProof]) newAgent = [forgedProof] /\
   validations (console s') = [forgedProof] /\
   Rejected forgedProof UntrustedSigner ∈ console s' /\
   proofsProcessed (stats s') = 0%nat) /\
  (let env := steadyEnv (fun _ => 75000000000%N) in
   let s' := (cycle env newAgent).2 in
   exists p, candidates env newAgent = [p] /\
             validations (console s') = [p] /\
             executionQueue s' = [p] /\
             proofsProcessed (stats s') = 0%nat).
Proof.
  split.
  - vm_compute. repeat split. apply list_elem_of_In. simpl. tauto.
  - eexists. vm_compute. repeat split.
Qed.

(** C9, amended. [proofsProcessed] counts the calls of [executeProof]:
    each call adds exactly one, whether it succeeds or fails, and over
    any run of the loop the counter grows by the number of such calls; a
    candidate that is rejected or deferred is not counted. *)
Theorem proofsProcessed_counts_executions :
  (forall env proof s,
     proofsProcessed (stats (executeProof env proof s).2)
     = S (proofsProcessed (stats s))) /\
  (forall env fuel s,
     exists out,
       printed s (monitorAndExecute env fuel s).2 out /\
       proofsProcessed (stats (monitorAndExecute env fuel s).2)
       = (proofsProcessed (stats s) + List.length (executions out))%nat).
Proof.
  split; [apply executeProof_bumps_proofsProcessed | apply countsExecutions_loop].
Qed.

(* ------------------------------------------------------------------ *)
(** ** Stats never go back *)
(* ------------------------------------------------------------------ *)

(** The three counters and the fee total do not decrease, and the two
    totals move only together with the success counter. *)
Definition statsGrow (s s' : RelayerAgent) : Prop :=
  (proofsProcessed (stats s) <= proofsProcessed (stats s'))%nat /\
  (successfulExecutions (stats s) <= successfulExecutions (stats s'))%nat /\
  (failedExecutions (stats s) <= failedExecutions (stats s'))%nat /\
  totalGasSpent (stats s) <= totalGasSpent (stats s') /\
  (successfulExecutions (stats s') = successfulExecutions (stats s) ->
   totalGasSpent (stats s') = totalGasSpent (stats s) /\
   totalMevSaved (stats s') = totalMevSaved (stats s)).

#[local] Instance statsGrow_refl : Reflexive statsGrow.
Proof. intros s. unfold statsGrow. repeat split; lia. Qed.

#[local] Instance statsGrow_trans : Transitive statsGrow.
Proof.
  intros a b c (?&?&?&?&Hab) (?&?&?&?&Hbc). unfold statsGrow.
  repeat split; lia.
Qed.

Ltac statsLeaf :=
  intros [? ? ? [? ? ? ? ?] ? ?]; unfold statsGrow; simpl; repeat split; lia.

Lemma executeProof_statsGrow env proof : always statsGrow (executeProof env proof).
Proof. intros s. runExecute s; unfold statsGrow; simpl; repeat split; lia. Qed.

Lemma determineOptimalTiming_statsGrow env proof :
  always statsGrow (determineOptimalTiming env proof).
Proof. unfold determineOptimalTiming, assessMEVRisk. alwaysM; statsLeaf. Qed.

Lemma validateProof_statsGrow env proof : always statsGrow (validateProof env proof).
Proof. unfold validateProof, validateProofAt. alwaysM; statsLeaf. Qed.

Lemma statsGrow_loop env fuel s : statsGrow s (monitorAndExecute env fuel s).2.
Proof.
  apply (monitorAndExecute_keeps statsGrow env anyProof anyProof);
    try apply _; try (intros; apply anyProof_all); try (intros; apply anyProof_admissible).
  - intros l. statsLeaf.
  - statsLeaf.
  - statsLeaf.
  - intros p. statsLeaf.
  - intros b. statsLeaf.
  - intros. apply validateProof_statsGrow.
  - intros. apply determineOptimalTiming_statsGrow.
  - intros. apply executeProof_statsGrow.
Qed.

(** The advisory benefit of the proof, where it is a number, is not
    negative. *)
Definition benefitOk (p : Proof) : Prop :=
  forall m, JS.BigInt (mevSaved p) = Some m -> 0 <= m.

(** Every proof the source ever returns has a benefit that is not
    negative. *)
Definition sourceBenefitOk (env : Env) : Prop :=
  forall t proofs, teeOutput env t = Some proofs -> Forall benefitOk proofs.

(** With such proofs in the queue, the benefit total does not decrease
    and the queue stays so. *)
Definition benefitGrows (s s' : RelayerAgent) : Prop :=
  queueOk benefitOk s ->
  queueOk benefitOk s' /\ totalMevSaved (stats s) <= totalMevSaved (stats s').

#[local] Instance benefitGrows_refl : Reflexive benefitGrows.
Proof. intros s H. split; [done | lia]. Qed.

#[local] Instance benefitGrows_trans : Transitive benefitGrows.
Proof.
  intros a b c Hab Hbc Ha. destruct (Hab Ha) as [Hb ?]. destruct (Hbc Hb) as [Hc ?].
  split; [done | lia].
Qed.

Ltac benefitLeaf :=
  intros [? ? ? [? ? ? ? ?] ? ?]; unfold benefitGrows, queueOk; simpl;
  intros ?; split; [done | lia].

Lemma executeProof_benefitGrows env proof :
  benefitOk proof -> always benefitGrows (executeProof env proof).
Proof.
  intros Hp s. runExecute s; unfold benefitGrows, queueOk; simpl; intros ?;
    (split; [done|]); try lia.
  match goal with H : JS.BigInt (mevSaved proof) = Some _ |- _ => apply Hp in H end. lia.
Qed.

Lemma determineOptimalTiming_benefitGrows env proof :
  always benefitGrows (determineOptimalTiming env proof).
Proof. unfold determineOptimalTiming, assessMEVRisk. alwaysM; benefitLeaf. Qed.

Lemma validateProof_benefitGrows env proof : always benefitGrows (validateProof env proof).
Proof. unfold validateProof, validateProofAt. alwaysM; benefitLeaf. Qed.

Lemma demoProof_benefitOk now : benefitOk (demoProof now).
Proof. intros m. vm_compute. intros [= <-]. done. Qed.

Lemma fetched_benefitOk env s :
  sourceBenefitOk env -> Forall (admissible anyProof benefitOk) (fetched env s).
Proof.
  intros Henv. apply Forall_forall. intros p Hp. split; [done|].
  unfold fetched in Hp. apply list_elem_of_In, filter_In in Hp as [Hp _].
  apply list_elem_of_In in Hp. unfold candidates in Hp.
  destruct (teeOutput env _) as [proofs|] eqn:E.
  - eapply Forall_forall; [exact (Henv _ _ E) | done].
  - apply list_elem_of_singleton in Hp as ->. apply demoProof_benefitOk.
Qed.

Lemma benefitGrows_loop env fuel s :
  sourceBenefitOk env -> benefitGrows s (monitorAndExecute env fuel s).2.
Proof.
  intros Henv Hs.
  apply (monitorAndExecute_keeps benefitGrows env anyProof benefitOk);
    try apply _; try done.
  - intros l. benefitLeaf.
  - benefitLeaf.
  - intros [? ? ? [? ? ? ? ?] ? ?] _. split; [by apply Forall_nil | simpl; lia].
  - intros p [? ? ? [? ? ? ? ?] ? ?] Hp. unfold benefitGrows, queueOk. simpl.
    intros Hq. split; [|lia]. apply Forall_app. split; [done|]. by apply Forall_singleton.
  - intros b. benefitLeaf.
  - intros. apply validateProof_benefitGrows.
  - intros. apply determineOptimalTiming_benefitGrows.
  - intros. by apply executeProof_benefitGrows.
  - intros s0 s1 H0 H1. by apply H1.
  - intros. by apply fetched_benefitOk.
Qed.

(** C8, as stated, fails: the validator accepts a proof whose benefit is
    negative, its execution succeeds, and the benefit total goes down. *)
Lemma totalMevSaved_decreases :
  let s' := (cycle (fileEnv [lossProof]) newAgent).2 in
  Validated lossProof ∈ console s' /\
  successfulExecutions (stats s') = 1%nat /\
  failedExecutions (stats s') = 0%nat /\
  totalMevSaved (stats s') = -5 /\
  totalMevSaved (stats s') < totalMevSaved (stats newAgent).
Proof.
  vm_compute. repeat split. apply list_elem_of_In. simpl. tauto.
Qed.

(** C8, amended. Over one call of [executeProof] and over any run of the
    loop, the three counters and the fee total never decrease, and the
    fee and benefit totals change only when the success counter does.
    The benefit total never decreases either when no proof, queued or
    returned by the source, has a negative benefit. *)
Theorem stats_monotone (env : Env) (s : RelayerAgent) :
  (forall proof,
     statsGrow s (executeProof env proof s).2 /\
     (benefitOk proof ->
      totalMevSaved (stats s) <= totalMevSaved (stats (executeProof env proof s).2))) /\
  (forall fuel,
     statsGrow s (monitorAndExecute env fuel s).2 /\
     (sourceBenefitOk env -> Forall benefitOk (executionQueue s) ->
      totalMevSaved (stats s) <= totalMevSaved (stats (monitorAndExecute env fuel s).2))).
Proof.
  split.
  - intros proof. split; [apply executeProof_statsGrow|].
    intros Hp. pose proof (executeProof_benefitGrows env proof Hp s) as H.
    generalize dependent H. runExecute s; unfold benefitGrows, queueOk; simpl; intros; try lia.
    match goal with H : JS.BigInt (mevSaved proof) = Some _ |- _ => apply Hp in H end. lia.
  - intros fuel. split; [apply statsGrow_loop|].
    intros Henv Hq. by apply (benefitGrows_loop env fuel s Henv).
Qed.

(* ------------------------------------------------------------------ *)
(** ** Who gets validated and executed *)
(* ------------------------------------------------------------------ *)

(** Every proof validated satisfies [validated], every proof executed or
    queued satisfies [executed]. *)
Definition callsWithin (validated executed : Proof -> Prop) (s s' : RelayerAgent) : Prop :=
  (exists out, printed s s' out /\
               Forall validated (validations out) /\
               Forall executed (executions out)) /\
  (queueOk executed s -> queueOk executed s').

Section CallsWithin.
Context (validated executed : Proof -> Prop).

#[local] Instance callsWithin_refl : Reflexive (callsWithin validated executed).
Proof.
  intros s. split; [|done]. exists []. unfold printed. rewrite app_nil_r.
  repeat split; apply Forall_nil_2.
Qed.

#[local] Instance callsWithin_trans : Transitive (callsWithin validated executed).
Proof.
  intros a b c [(o1 & H1 & V1 & E1) Q1] [(o2 & H2 & V2 & E2) Q2].
  split; [|auto]. exists (o1 ++ o2). unfold printed, validations, executions in *.
  rewrite H2, H1, app_assoc, !omap_app, !Forall_app. done.
Qed.

(** A write that prints nothing and leaves the queue alone. *)
Lemma callsWithin_silent s s' :
  console s' = console s -> executionQueue s' = executionQueue s ->
  callsWithin validated executed s s'.
Proof.
  intros Hc Hq. split; [|unfold queueOk; by rewrite Hq].
  exists []. unfold printed. rewrite app_nil_r. repeat split; done || apply Forall_nil_2.
Qed.

(** A line that is neither the start of a validation nor of an
    execution. *)
Lemma callsWithin_line l s :
  validation l = None -> execution l = None ->
  callsWithin validated executed s (set_console (fun c => c ++ [l]) s).
Proof.
  intros Hv He. destruct s. split; [|done]. exists [l]. unfold printed. simpl.
  unfold validations, executions. simpl. rewrite Hv, He. repeat split; apply Forall_nil_2.
Qed.

Ltac callsLeaf :=
  first [ by intros; apply callsWithin_line
        | by intros []; apply callsWithin_silent ].

Lemma determineOptimalTiming_callsWithin env proof :
  always (callsWithin validated executed) (determineOptimalTiming env proof).
Proof. unfold determineOptimalTiming, assessMEVRisk. alwaysM; callsLeaf. Qed.

Lemma validateProof_callsWithin env proof :
  validated proof -> always (callsWithin validated executed) (validateProof env proof).
Proof.
  intros Hp. unfold validateProof, validateProofAt.
  apply always_bind; [apply _ | apply always_reads; apply _ | intros t].
  apply always_bind; [apply _ | | intros _; alwaysM; callsLeaf].
  apply always_print. intros []. split; [|done]. exists [Validating proof].
  repeat split; [by apply Forall_singleton | apply Forall_nil_2].
Qed.

Lemma executeProof_callsWithin env proof :
  executed proof -> always (callsWithin validated executed) (executeProof env proof).
Proof.
  intros Hp s. runExecute s.
  all: split; [|done]; eexists; unfold printed; simpl; rewrite <- !app_assoc;
    (split; [reflexivity|]); simpl; split; [apply Forall_nil_2 | by apply Forall_singleton].
Qed.

Lemma callsWithin_cycle env s :
  queueOk executed s ->
  Forall (admissible validated executed) (fetched env s) ->
  callsWithin validated executed s (cycle env s).2.
Proof.
  apply (cycle_keeps (callsWithin validated executed) env validated executed);
    try apply _.
  - intros l s0 Hl. apply callsWithin_line; by destruct l.
  - callsLeaf.
  - intros []. split; [|intros _; apply Forall_nil_2].
    exists []. unfold printed. simpl. rewrite app_nil_r. repeat split; apply Forall_nil_2.
  - intros p [] Hp. split.
    + exists []. unfold printed. simpl. rewrite app_nil_r. repeat split; apply Forall_nil_2.
    + unfold queueOk. simpl. intros Hq. apply Forall_app. split; [done|].
      by apply Forall_singleton.
  - intros. by apply validateProof_callsWithin.
  - intros. apply determineOptimalTiming_callsWithin.
  - intros. by apply executeProof_callsWithin.
  - intros s0 s1 H0 [_ H1]. auto.
Qed.
End CallsWithin.

(** The environment in which the source, at the poll that starts in [s],
    returns only the candidates the agent has not processed yet. *)
Definition pruneSource (env : Env) (s : RelayerAgent) : Env := {|
  getFeeData := getFeeData env;
  getBlockNumber := getBlockNumber env;
  dateNow := dateNow env;
  teeOutput := fun t => if (t =? S (clock s))%nat then Some (fetched env s)
                        else teeOutput env t;
  mathRandom16 := mathRandom16 env
|}.

Lemma filter_filter_same {A} (f : A -> bool) (l : list A) :
  List.filter f (List.filter f l) = List.filter f l.
Proof.
  induction l as [|x l IH]; simpl; [done|].
  destruct (f x) eqn:E; simpl; [by rewrite E, IH | done].
Qed.

Lemma fetched_pruneSource env s : fetched (pruneSource env s) s = fetched env s.
Proof.
  unfold fetched at 1, candidates. simpl. rewrite Nat.eqb_refl.
  unfold fetched. apply filter_filter_same.
Qed.

Lemma cycleTry_fetched env s :
  cycleTry env s
  = ((match fetched env s with
      | [] => ret tt
      | _ => print (Found (List.length (fetched env s))) >>
             forOf (fetched env s) (processCandidate env)
      end) >> processQueue env >> sleep (POLL_INTERVAL_MS CONFIG))
      (set_clock S (set_console (fun c => c ++ [Scanning]) s)).
Proof.
  unfold cycleTry. unfold bind at 1. unfold print at 1, modify at 1.
  unfold bind at 1. rewrite fetchPendingProofs_run.
  assert (fetched env (set_console (fun c => c ++ [Scanning]) s) = fetched env s) as ->
    by by destruct s.
  reflexivity.
Qed.

(** Candidates whose identifier is in [processedProofs] have no part in
    the cycle: it runs as if the source had not returned them. *)
Lemma cycle_pruneSource env s : cycle (pruneSource env s) s = cycle env s.
Proof.
  unfold cycle, tryCatch. rewrite !cycleTry_fetched, fetched_pruneSource. reflexivity.
Qed.

(** With nothing new fetched and nothing queued the cycle only prints
    that it scans. *)
Lemma cycle_idle env s :
  fetched env s = [] -> executionQueue s = [] ->
  cycle env s
  = (Normal tt, set_clock S (set_clock S (set_console (fun c => c ++ [Scanning]) s))).
Proof.
  intros Hf Hq. unfold cycle, tryCatch. rewrite cycleTry_fetched, Hf.
  destruct s. simpl in Hq. subst. reflexivity.
Qed.

(** C7. [fetchPendingProofs] drops every candidate whose identifier is in
    [processedProofs] and keeps the others in order.  In the cycle the
    validator is called on unprocessed candidates only and the engine on
    those or on queued proofs; the cycle runs exactly as if the source
    had not returned the processed candidates; and when all candidates
    are processed and the queue is empty, no field of the agent changes. *)
Theorem processed_candidates_filtered (env : Env) (s : RelayerAgent) :
  fetchPendingProofs env s
  = (Normal (List.filter (unprocessed (processedProofs s)) (candidates env s)),
     set_clock S s) /\
  (forall p, p ∈ candidates env s -> intentHash p ∈ processedProofs s ->
             p ∉ fetched env s) /\
  (exists out,
     printed s (cycle env s).2 out /\
     (forall p, p ∈ validations out ->
        p ∈ candidates env s /\ intentHash p ∉ processedProofs s) /\
     (forall p, p ∈ executions out ->
        (p ∈ candidates env s /\ intentHash p ∉ processedProofs s) \/
        p ∈ executionQueue s)) /\
  cycle (pruneSource env s) s = cycle env s /\
  ((forall p, p ∈ candidates env s -> intentHash p ∈ processedProofs s) ->
   executionQueue s = [] ->
   sameAgent s (cycle env s).2 /\ printed s (cycle env s).2 [Scanning]).
Proof.
  assert (forall p, p ∈ fetched env s <->
                    p ∈ candidates env s /\ intentHash p ∉ processedProofs s) as Hf.
  { intros p. unfold fetched. rewrite !list_elem_of_In, filter_In, <- list_elem_of_In.
    unfold unprocessed. rewrite negb_true_iff, bool_decide_eq_false. done. }
  split; [apply fetchPendingProofs_run|].
  split; [intros p _ Hp [_ Hn]%Hf; done|].
  split; [|split; [apply cycle_pruneSource|]].
  - destruct (callsWithin_cycle (fun p => p ∈ fetched env s)
                (fun p => p ∈ fetched env s \/ p ∈ executionQueue s) env s)
      as [(out & Hout & Hv & He) _].
    + apply Forall_forall. auto.
    + apply Forall_forall. intros p Hp. split; auto.
    + exists out. split; [done|].
      rewrite Forall_forall in Hv. rewrite Forall_forall in He.
      split; intros p Hp; [by apply Hf, Hv|].
      destruct (He p Hp) as [H|H]; [left; by apply Hf | by right].
  - intros Hall Hq.
    assert (fetched env s = []) as Hnone.
    { apply elem_of_nil_inv. intros p [Hp Hn]%Hf. by apply Hn, Hall. }
    rewrite (cycle_idle env s Hnone Hq). by destruct s.
Qed.

(** Settled once, polled again: the second cycle changes no stats. *)
Example refetch_settled :
  let env := steadyEnv (fun _ => 5000000000%N) in
  let s1 := (cycle env newAgent).2 in
  successfulExecutions (stats s1) = 1%nat /\
  stats (cycle env s1).2 = stats s1 /\
  executions (console (cycle env s1).2) = executions (console s1).
Proof. vm_compute. repeat split. Qed.

(* ------------------------------------------------------------------ *)
(** ** Rejections *)
(* ------------------------------------------------------------------ *)




(* ------------------------------------------------------------------ *)
(** ** Draining the queue *)
(* ------------------------------------------------------------------ *)


(** The input amount reads as a number, as it does for every proof that
    passed the validator. *)
Definition numericAmount (p : Proof) : Prop := is_Some (JS.BigInt (amountIn p)).






Lemma forOf_cons_Normal {X} (x : X) xs (body : X -> M unit) s s1 :
  body x s = (Normal tt, s1) -> forOf (x :: xs) body s = forOf xs body s1.
Proof. intros H. simpl. unfold bind. by rewrite H. Qed.





(** When a provider read throws in the middle of the drain, the loop is
    left at once: the queue has been emptied and is not restored. *)
Example processQueue_abandoned :
  let r := processQueue feeDownEnv waitingAgent in
  r.1 = Throw "network error" /\ executionQueue r.2 = [].
Proof. vm_compute. repeat split. Qed.

(** The first proof is deferred and stays, the second is executed. *)
Example processQueue_mixed :
  let s' := (processQueue coolingEnv waitingAgent).2 in
  executionQueue s' = [demoProof 1700000000] /\
  executions (console s') = [lossProof] /\
  timingVerdicts (console s') = [(demoProof 1700000000, false); (lossProof, true)].
Proof. vm_compute. repeat split. Qed.

(* ------------------------------------------------------------------ *)
(** ** Executing the same proof twice *)
(* ------------------------------------------------------------------ *)

(** [executeProof] never reads [processedProofs]: with any other set in
    its place the call returns the same result, prints the same lines
    and leaves the same stats. *)
Lemma executeProof_ignores_processedProofs env proof s (X : gset string) :
  let r := executeProof env proof s in
  let r' := executeProof env proof (set_processedProofs (fun _ => X) s) in
  r.1 = r'.1 /\ stats r.2 = stats r'.2 /\ console r.2 = console r'.2.
Proof. runExecute s. Qed.

(** C1 fails on the code.  [executeProof] has no test of
    [processedProofs]: called again on a proof it has just settled it
    submits again and counts a second success; and the loop does reach
    such a second call, when a deferred proof waits in the queue while
    the source returns it once more. *)
Theorem executeProof_twice_submits_twice :
  (let env := steadyEnv (fun _ => 5000000000%N) in
   let p := demoProof 1700000000 in
   let first := executeProof env p newAgent in
   let second := executeProof env p first.2 in
   (exists tx, first.1 = Normal (ExecSuccess tx)) /\
   unprocessed (processedProofs first.2) p = false /\
   (exists tx, second.1 = Normal (ExecSuccess tx) /\ TxSubmitted tx ∈ console second.2) /\
   executions (console second.2) = [p; p] /\
   stats first.2 = mkStats 1 1 0 1250000000000000 23470000 /\
   stats second.2 = mkStats 2 2 0 2500000000000000 46940000) /\
  (let env := steadyEnv (fun t => if (t <? 5)%nat then 75000000000%N else 5000000000%N) in
   let s2 := (cycle env >> cycle env) newAgent in
   (intentHash <$> executions (console s2.2))
   = [intentHash (demoProof 0); intentHash (demoProof 0)] /\
   successfulExecutions (stats s2.2) = 2%nat).
Proof.
  split.
  - lazy zeta. split; [eexists; vm_compute; reflexivity|].
    split; [vm_compute; reflexivity|].
    split; [|vm_compute; repeat split].
    eexists. split; [vm_compute; reflexivity|].
    apply list_elem_of_In. vm_compute. tauto.
  - vm_compute. repeat split.
Qed.

(* ------------------------------------------------------------------ *)
(** ** More on the execution engine *)
(* ------------------------------------------------------------------ *)

(** X1. [executeProof] answers every call with a result object: whatever the
    provider and the proof, no error leaves its [try]/[catch]. *)
Theorem executeProof_never_throws (env : Env) (proof : Proof) (s : RelayerAgent) :
  (exists txHash, (executeProof env proof s).1 = Normal (ExecSuccess txHash)) \/
  (exists message, (executeProof env proof s).1 = Normal (ExecFailure message)).
Proof. runExecute s; eauto. Qed.

(** X2. The successful path of [executeProof]: the transaction data is
    numeric, both provider reads return, the gas price is not [null] and
    the benefit is numeric.  The identifier is then settled, the three
    counters involved go up by one, the fee total grows by the gas
    estimate (not the buffered gas limit) times the gas price and the
    benefit total by [mevSaved]. *)
Theorem executeProof_success (env : Env) (proof : Proof) (s : RelayerAgent)
    (feeData : FeeData) (g block : N) (m : Z) :
  prepares proof ->
  getFeeData env (clock s) = Normal feeData ->
  gasPrice feeData = Some g ->
  getBlockNumber env (3 + clock s) = Normal block ->
  JS.BigInt (mevSaved proof) = Some m ->
  let s' := (executeProof env proof s).2 in
  (executeProof env proof s).1 = Normal (ExecSuccess (mockTxHash env (2 + clock s))) /\
  processedProofs s' = processedProofs s ∪ {[ intentHash proof ]} /\
  proofsProcessed (stats s') = S (proofsProcessed (stats s)) /\
  successfulExecutions (stats s') = S (successfulExecutions (stats s)) /\
  failedExecutions (stats s') = failedExecutions (stats s) /\
  totalGasSpent (stats s') = totalGasSpent (stats s) + 250000 * Z.of_N g /\
  totalMevSaved (stats s') = totalMevSaved (stats s) + m /\
  clock s' = (4 + clock s)%nat /\
  printed s s' [Executing proof; GasEstimated 250000 300000;
                TxSubmitted (mockTxHash env (2 + clock s)); TxConfirmed block].
Proof.
  intros ([a Ha] & [b Hb] & [c Hc]) Hfee Hg Hblock Hm.
  destruct s as [processed running queue [seen ok failed gas mev] t lines].
  unfold executeProof, executeProofTry, executeProofCatch, buildProofStruct, gasCost.
  unfoldM. simpl in *. rewrite Ha, Hb, Hc. simpl. rewrite Hfee. simpl.
  rewrite Hblock. simpl. rewrite Hg. simpl. rewrite Hm. simpl.
  unfold printed. simpl. rewrite <- !app_assoc. repeat split.
Qed.

Lemma executeProof_success_witness :
  let env := steadyEnv (fun _ => 5000000000%N) in
  let s' := (executeProof env (demoProof 1700000000) newAgent).2 in
  successfulExecutions (stats s') = 1%nat /\
  totalGasSpent (stats s') = 0 + 250000 * Z.of_N 5000000000 /\
  totalMevSaved (stats s') = 0 + 23470000.
Proof.
  destruct (executeProof_success (steadyEnv (fun _ => 5000000000%N))
              (demoProof 1700000000) newAgent
              (mkFeeData (Some 5000000000%N)) 5000000000%N 3%N 23470000)
    as (_ & _ & _ & H1 & _ & H2 & H3 & _).
  - repeat split; eexists; reflexivity.
  - reflexivity.
  - reflexivity.
  - reflexivity.
  - reflexivity.
  - lazy zeta. split; [exact H1 | split; [exact H2 | exact H3]].
Defined.

(** X3. The stats update comes after the confirmation and inside the same
    [try]: when it throws, on a [null] gas price or a benefit that is not
    a number, the success counter has already been stepped.  The call
    then reports a failure, un-marks the identifier, and leaves one more
    success and one more failure counted; in the second case the fee
    total has grown as well. *)
Theorem executeProof_late_failure (env : Env) (proof : Proof) (s : RelayerAgent)
    (feeData : FeeData) (block : N) :
  prepares proof ->
  getFeeData env (clock s) = Normal feeData ->
  getBlockNumber env (3 + clock s) = Normal block ->
  (gasPrice feeData = None \/ JS.BigInt (mevSaved proof) = None) ->
  let s' := (executeProof env proof s).2 in
  (exists message, (executeProof env proof s).1 = Normal (ExecFailure message)) /\
  (intentHash proof ∉ processedProofs s') /\
  successfulExecutions (stats s') = S (successfulExecutions (stats s)) /\
  failedExecutions (stats s') = S (failedExecutions (stats s)) /\
  totalMevSaved (stats s') = totalMevSaved (stats s) /\
  (forall g, gasPrice feeData = Some g ->
     totalGasSpent (stats s') = totalGasSpent (stats s) + 250000 * Z.of_N g) /\
  (gasPrice feeData = None -> totalGasSpent (stats s') = totalGasSpent (stats s)).
Proof.
  intros ([a Ha] & [b Hb] & [c Hc]) Hfee Hblock Hlate.
  assert (forall (X : gset string) h, h ∉ (X ∪ {[h]}) ∖ {[h]}) as Hout.
  { intros X h [_ Hn]%elem_of_difference. apply Hn. by apply elem_of_singleton. }
  destruct s as [processed running queue [seen ok failed gas mev] t lines].
  unfold executeProof, executeProofTry, executeProofCatch, buildProofStruct, gasCost.
  unfoldM. simpl in *. rewrite Ha, Hb, Hc. simpl. rewrite Hfee. simpl.
  rewrite Hblock. simpl.
  destruct (gasPrice feeData) as [g|] eqn:Hg; simpl.
  - destruct Hlate as [|Hm]; [done|]. rewrite Hm. simpl.
    repeat split; eauto; [by intros g' [= <-] | done].
  - repeat split; eauto; done.
Qed.

(** A provider that answers, with a [null] gas price. *)
Definition nullPriceEnv : Env := {|
  getFeeData := fun _ => Normal (mkFeeData None);
  getBlockNumber := fun t => Normal (N.of_nat t);
  dateNow := fun t => 1700000000 + Z.of_nat t;
  teeOutput := fun _ => None;
  mathRandom16 := fun t i => (t + i)%nat
|}.

Lemma executeProof_late_failure_witness :
  let s' := (executeProof nullPriceEnv (demoProof 1700000000) newAgent).2 in
  successfulExecutions (stats s') = 1%nat /\ failedExecutions (stats s') = 1%nat.
Proof.
  destruct (executeProof_late_failure nullPriceEnv (demoProof 1700000000) newAgent
              (mkFeeData None) 3%N) as (_ & _ & H1 & H2 & _).
  - repeat split; eexists; reflexivity.
  - reflexivity.
  - reflexivity.
  - by left.
  - lazy zeta. split; [exact H1 | exact H2].
Defined.

(** The first of the three amounts of the transaction data that is not a
    number, in source order. *)
Definition firstNonNumeric (proof : Proof) : option string :=
  match JS.BigInt (amountIn proof) with
  | None => Some (amountIn proof)
  | Some _ =>
      match JS.BigInt (amountOut proof) with
      | None => Some (amountOut proof)
      | Some _ =>
          match JS.BigInt (clearingPrice proof) with
          | None => Some (clearingPrice proof)
          | Some _ => None
          end
      end
  end.

(** X4. A proof whose transaction data holds a field that is not a number
    fails before the provider is consulted: the failure names that field,
    nothing is submitted, the identifier is un-marked and the call is
    counted as processed and as failed. *)
Theorem executeProof_malformed (env : Env) (proof : Proof) (s : RelayerAgent)
    (field : string) :
  firstNonNumeric proof = Some field ->
  let message := ("Cannot convert " ++ field ++ " to a BigInt")%string in
  let s' := (executeProof env proof s).2 in
  (executeProof env proof s).1 = Normal (ExecFailure message) /\
  clock s' = clock s /\
  printed s s' [Executing proof; ExecutionFailed proof message] /\
  (intentHash proof ∉ processedProofs s') /\
  proofsProcessed (stats s') = S (proofsProcessed (stats s)) /\
  failedExecutions (stats s') = S (failedExecutions (stats s)) /\
  successfulExecutions (stats s') = successfulExecutions (stats s) /\
  totalGasSpent (stats s') = totalGasSpent (stats s) /\
  totalMevSaved (stats s') = totalMevSaved (stats s).
Proof.
  intros Hfield.
  assert (forall (X : gset string) h, h ∉ (X ∪ {[h]}) ∖ {[h]}) as Hout.
  { intros X h [_ Hn]%elem_of_difference. apply Hn. by apply elem_of_singleton. }
  unfold firstNonNumeric in Hfield.
  destruct s as [processed running queue [seen ok failed gas mev] t lines].
  unfold executeProof, executeProofTry, executeProofCatch, buildProofStruct, gasCost.
  unfoldM. simpl in *.
  destruct (JS.BigInt (amountIn proof)); simpl.
  2:{ injection Hfield as <-. unfold printed. simpl. rewrite <- !app_assoc.
      repeat split; auto. }
  destruct (JS.BigInt (amountOut proof)); simpl.
  2:{ injection Hfield as <-. unfold printed. simpl. rewrite <- !app_assoc.
      repeat split; auto. }
  destruct (JS.BigInt (clearingPrice proof)); simpl; [done|].
  injection Hfield as <-. unfold printed. simpl. rewrite <- !app_assoc.
  repeat split; auto.
Qed.

(** The demo proof with a clearing price that is not a number. *)
Definition unpricedProof : Proof := {|
  batchId := "0x03";
  timestamp := 1700000000;
  user := "0x742d35Cc6634C0532925a3b844Bc9e7595f8fE21";
  tokenIn := "0x036CbD53842c5426634e7929541eC2318f3dCF7e";
  tokenOut := "0x4200000000000000000000000000000000000006";
  amountIn := "1000000000";
  amountOut := "385000000000000000";
  clearingPrice := "2598.42";
  intentHash := "0xc3";
  userSignature := "0x";
  teeSignature := Some ("0x" ++ JS.repeat "d" 130)%string;
  teeSigner := TRUSTED_TEE_SIGNER CONFIG;
  merkleRoot := "0x";
  mevSaved := "0"
|}.

Lemma executeProof_malformed_witness :
  (executeProof (steadyEnv (fun _ => 5000000000%N)) unpricedProof newAgent).1
  = Normal (ExecFailure "Cannot convert 2598.42 to a BigInt").
Proof.
  apply (executeProof_malformed (steadyEnv (fun _ => 5000000000%N)) unpricedProof
           newAgent "2598.42").
  reflexivity.
Defined.

(** X5. [executeProof] writes to [processedProofs] and [stats] only: the
    queue and [isRunning] are as before, no identifier other than the
    proof's own enters or leaves [processedProofs], the proof's own is in
    the set after a success and out of it after a failure, and the call
    passes at most four suspension points. *)
Theorem executeProof_frame (env : Env) (proof : Proof) (s : RelayerAgent) :
  let s' := (executeProof env proof s).2 in
  executionQueue s' = executionQueue s /\
  isRunning s' = isRunning s /\
  (clock s <= clock s' <= 4 + clock s)%nat /\
  (forall h, h <> intentHash proof -> h ∈ processedProofs s' <-> h ∈ processedProofs s) /\
  (forall txHash, (executeProof env proof s).1 = Normal (ExecSuccess txHash) ->
                  intentHash proof ∈ processedProofs s') /\
  (forall message, (executeProof env proof s).1 = Normal (ExecFailure message) ->
                   intentHash proof ∉ processedProofs s').
Proof.
  assert (forall (X : gset string) h k, h <> k -> h ∈ X ∪ {[k]} <-> h ∈ X) as Hadd.
  { intros X h k Hne. rewrite elem_of_union, elem_of_singleton. tauto. }
  assert (forall (X : gset string) h k, h <> k -> h ∈ (X ∪ {[k]}) ∖ {[k]} <-> h ∈ X) as Hdel.
  { intros X h k Hne. rewrite elem_of_difference, elem_of_union, elem_of_singleton. tauto. }
  assert (forall (X : gset string) h, h ∈ X ∪ {[h]}) as Hin.
  { intros X h. apply elem_of_union. right. by apply elem_of_singleton. }
  assert (forall (X : gset string) h, h ∉ (X ∪ {[h]}) ∖ {[h]}) as Hout.
  { intros X h [_ Hn]%elem_of_difference. apply Hn. by apply elem_of_singleton. }
  runExecute s; repeat split; auto; try lia; try done; try (by apply Hadd);
    try (by apply Hdel).
Qed.

(* ------------------------------------------------------------------ *)
(** ** More on the timing advisor *)
(* ------------------------------------------------------------------ *)

(** X6. [determineOptimalTiming] only reads: whatever it answers, and also
    when it throws, no field of the agent has changed; and it consults
    the provider at most twice. *)
Theorem determineOptimalTiming_reads_only (env : Env) (proof : Proof) (s : RelayerAgent) :
  let s' := (determineOptimalTiming env proof s).2 in
  sameAgent s s' /\ (clock s < clock s' <= 2 + clock s)%nat.
Proof.
  destruct s as [processed running queue st t lines].
  unfold determineOptimalTiming, assessMEVRisk. runM; repeat split; simpl; lia.
Qed.

(** X7. When [determineOptimalTiming] throws: a failed fee read; or, with an
    acceptable fee price, an input amount that is not a number or a
    failed block read.  With a fee price above the ceiling it never
    throws. *)
Theorem determineOptimalTiming_throws (env : Env) (proof : Proof) (s : RelayerAgent)
    (message : string) :
  (determineOptimalTiming env proof s).1 = Throw message <->
  getFeeData env (clock s) = Throw message \/
  (exists feeData,
     getFeeData env (clock s) = Normal feeData /\ gasTooHigh feeData = false /\
     ((JS.BigInt (amountIn proof) = None /\
       message = ("Cannot convert " ++ amountIn proof ++ " to a BigInt")%string) \/
      (is_Some (JS.BigInt (amountIn proof)) /\
       getBlockNumber env (S (clock s)) = Throw message))).
Proof.
  destruct s as [processed running queue st t lines].
  unfold determineOptimalTiming, assessMEVRisk. unfoldM. simpl.
  destruct (getFeeData env t) as [feeData|e] eqn:Hfee; simpl.
  2:{ split; [intros [= <-]; by left | intros [[= <-]|(fd & ? & _)]; done]. }
  destruct (gasTooHigh feeData) eqn:Hgas; simpl.
  { split; [done | intros [|(fd & [= <-] & ? & _)]; congruence]. }
  destruct (JS.BigInt (amountIn proof)) as [a|] eqn:Ha; simpl.
  2:{ split.
      - intros [= <-]. right. exists feeData. repeat split; auto.
      - intros [|(fd & _ & _ & [[_ ->]|[[? ?] _]])]; done. }
  destruct (a >? 10000 * 10 ^ 6); simpl;
    destruct (getBlockNumber env (S t)) as [b|e] eqn:Hb; simpl.
  all: split;
    [ intros [= <-] || done; right; exists feeData; repeat split; auto; right; split; eauto
    | intros [|(fd & _ & _ & [[? _]|[_ ?]])]; congruence ].
Qed.

(* ------------------------------------------------------------------ *)
(** ** More on the validator *)
(* ------------------------------------------------------------------ *)

(** The signature passes the format test. *)
Definition signatureOk (proof : Proof) : bool :=
  match teeSignature proof with
  | None => false
  | Some sig => negb (String.length sig <? 130)%nat
  end.

(** Two proofs that agree on everything the validator looks at: the
    signer up to case, the timestamp, whether the signature passes the
    format test, and the two amounts. *)
Definition sameCheckedFields (p q : Proof) : Prop :=
  JS.toLowerCase (teeSigner p) = JS.toLowerCase (teeSigner q) /\
  timestamp p = timestamp q /\
  signatureOk p = signatureOk q /\
  amountIn p = amountIn q /\
  amountOut p = amountOut q.

(** X8. The validator's verdict depends on nothing else: not on the content
    of the TEE signature, nor on the user, the tokens, the batch, the
    clearing price, the identifier, the user signature, the Merkle root
    or the benefit. *)
Theorem validateProof_checks_only (trusted : string) (now : Z) (p q : Proof)
    (s : RelayerAgent) :
  sameCheckedFields p q ->
  (validateProofAt trusted now p s).1 = (validateProofAt trusted now q s).1.
Proof.
  intros (H1 & H2 & H3 & H4 & H5). unfold validateProofAt, signatureOk in *.
  rewrite H1, H2, H4, H5.
  assert (match teeSignature p with
          | Some sig => (String.length sig <? 130)%nat | None => true end
          = match teeSignature q with
            | Some sig => (String.length sig <? 130)%nat | None => true end) as ->.
  { destruct (teeSignature p) as [a|], (teeSignature q) as [b|]; simpl in *; try done.
    - by destruct (String.length a <? 130)%nat, (String.length b <? 130)%nat.
    - by destruct (String.length a <? 130)%nat.
    - by destruct (String.length b <? 130)%nat. }
  destruct s. runM.
Qed.

(** A proof that shares the checked fields of the demo proof and nothing
    else. *)
Definition lookalikeProof : Proof := {|
  batchId := "";
  timestamp := 1700000000;
  user := "";
  tokenIn := "";
  tokenOut := "";
  amountIn := "1000000000";
  amountOut := "385000000000000000";
  clearingPrice := "";
  intentHash := "";
  userSignature := "";
  teeSignature := Some (JS.repeat "z" 130);
  teeSigner := "0X7E5F4552091A69125D5DFCB7B8C2659029395BDF";
  merkleRoot := "";
  mevSaved := "none"
|}.

Lemma validateProof_checks_only_witness :
  (validateProofAt (TRUSTED_TEE_SIGNER CONFIG) 1700000010 lookalikeProof newAgent).1
  = Normal true.
Proof.
  rewrite <- (validateProof_checks_only (TRUSTED_TEE_SIGNER CONFIG) 1700000010
                (demoProof 1700000000) lookalikeProof newAgent).
  - reflexivity.
  - repeat split; reflexivity.
Defined.

(** The conditions under which the validator throws, with the message:
    rules 1 to 3 pass and an amount is not a number, the input amount
    being converted first. *)
Definition validationThrows (trusted : string) (now : Z) (proof : Proof)
    (message : string) : Prop :=
  signerTrusted trusted proof /\ fresh now proof /\ signatureWellFormed proof /\
  ((JS.BigInt (amountIn proof) = None /\
    message = ("Cannot convert " ++ amountIn proof ++ " to a BigInt")%string) \/
   (is_Some (JS.BigInt (amountIn proof)) /\ JS.BigInt (amountOut proof) = None /\
    message = ("Cannot convert " ++ amountOut proof ++ " to a BigInt")%string)).

Lemma validateProofAt_throws_run trusted now proof message s :
  validationThrows trusted now proof message ->
  validateProofAt trusted now proof s
  = (Throw message, set_console (fun c => c ++ [Validating proof]) s).
Proof.
  intros (H1 & H2 & H3 & H4). rewrite passes_three by done. unfoldM.
  destruct H4 as [[Ha ->]|([a Ha] & Hb & ->)]; rewrite Ha; simpl; [done|].
  by rewrite Hb.
Qed.

(** X9. [validateProof] throws, instead of answering, exactly on a proof
    that passes the signer, freshness and signature rules and has an
    amount that is not a number; an input amount that is zero or negative
    does not save a non-numeric output amount from throwing. *)
Theorem validateProof_throws (trusted : string) (now : Z) (proof : Proof)
    (s : RelayerAgent) (message : string) :
  (validateProofAt trusted now proof s).1 = Throw message <->
  validationThrows trusted now proof message.
Proof.
  split; [|intros H; by rewrite (validateProofAt_throws_run _ _ _ _ _ H)].
  unfold validateProofAt, validationThrows. intros H.
  destruct (String.eqb _ _) eqn:E1; simpl in H; [|by runM].
  apply signerTrusted_eqb in E1.
  destruct (Z.gtb_spec (now - timestamp proof) 3600) as [E2|E2]; [by runM|].
  destruct (teeSignature proof) as [sig|] eqn:E3; [|by runM].
  destruct (Nat.ltb_spec (String.length sig) 130) as [E4|E4]; [by runM|].
  split; [done|]. split; [done|]. split; [by exists sig|].
  unfoldM. simpl in H.
  destruct (JS.BigInt (amountIn proof)) as [a|] eqn:Ea; simpl in H.
  2:{ injection H as <-. by left. }
  destruct (JS.BigInt (amountOut proof)) as [b|] eqn:Eb; simpl in H.
  2:{ injection H as <-. right. eauto. }
  destruct ((a <=? 0) || (b <=? 0)); simpl in H; done.
Qed.

(* ------------------------------------------------------------------ *)
(** ** More on the queue and the loop *)
(* ------------------------------------------------------------------ *)

Lemma determineOptimalTiming_sameAgent env proof s :
  sameAgent s (determineOptimalTiming env proof s).2.
Proof.
  destruct s as [processed running queue st t lines].
  unfold determineOptimalTiming, assessMEVRisk. runM.
Qed.

Lemma executeProof_queue env proof s :
  executionQueue (executeProof env proof s).2 = executionQueue s.
Proof. runExecute s. Qed.

Lemma forOf_cons_Throw {X} (x : X) xs (body : X -> M unit) s e s1 :
  body x s = (Throw e, s1) -> forOf (x :: xs) body s = (Throw e, s1).
Proof. intros H. simpl. unfold bind. by rewrite H. Qed.

(** One turn of the loop of [processQueue] leaves the queue as it is or
    appends the proof at hand. *)
Lemma processQueued_queue env proof s :
  executionQueue (processQueued env proof s).2 = executionQueue s \/
  executionQueue (processQueued env proof s).2 = executionQueue s ++ [proof].
Proof.
  unfold processQueued, bind.
  pose proof (determineOptimalTiming_sameAgent env proof s) as (_ & _ & Hq & _).
  destruct (determineOptimalTiming env proof s) as [[[]|e] s1]; simpl in *.
  - pose proof (executeProof_queue env proof s1) as Hq'.
    destruct (executeProof env proof s1) as [[r|e] s2]; simpl in *; left; congruence.
  - right. destruct s1. simpl in *. by rewrite Hq.
  - by left.
Qed.

Lemma forOf_processQueued_sublist env queue s :
  exists kept,
    kept `sublist_of` queue /\
    executionQueue (forOf queue (processQueued env) s).2 = executionQueue s ++ kept.
Proof.
  revert s. induction queue as [|p queue IH]; intros s.
  - exists []. simpl. by rewrite app_nil_r.
  - pose proof (processQueued_queue env p s) as Hp.
    destruct (processQueued env p s) as [[[]|e] s1] eqn:Hrun; simpl in Hp.
    + rewrite (forOf_cons_Normal _ _ _ _ _ Hrun).
      destruct (IH s1) as (kept & Hsub & Hq). destruct Hp as [Hp|Hp]; rewrite Hp in Hq.
      * exists kept. split; [by apply sublist_cons | done].
      * exists (p :: kept). split; [by apply sublist_skip|].
        by rewrite Hq, <- app_assoc.
    + rewrite (forOf_cons_Throw _ _ _ _ _ _ Hrun). simpl.
      destruct Hp as [Hp|Hp]; rewrite Hp.
      * exists []. split; [apply sublist_nil_l | by rewrite app_nil_r].
      * exists [p]. split; [|done]. apply sublist_skip, sublist_nil_l.
Qed.

(** X10. [processQueue] never adds to the queue and never reorders it: with
    any provider, also one whose reads throw, the queue after the call is
    a subsequence of the queue before. *)
Theorem processQueue_sublist (env : Env) (s : RelayerAgent) :
  executionQueue (processQueue env s).2 `sublist_of` executionQueue s.
Proof.
  destruct s as [processed running queue st t lines].
  destruct queue as [|p queue]; [done|].
  set (s0 := mkAgent processed running [] st t
               (lines ++ [ProcessingQueue (List.length (p :: queue))])).
  change (processQueue env (mkAgent processed running (p :: queue) st t lines))
    with (forOf (p :: queue) (processQueued env) s0).
  destruct (forOf_processQueued_sublist env (p :: queue) s0) as (kept & Hsub & ->).
  done.
Qed.

Lemma processCandidate_throws env proof s message :
  validationThrows (TRUSTED_TEE_SIGNER CONFIG) (dateNow env (clock s)) proof message ->
  processCandidate env proof s
  = (Throw message, set_console (fun c => c ++ [Validating proof]) s).
Proof.
  intros H. unfold processCandidate, bind.
  by rewrite validateProof_at, (validateProofAt_throws_run _ _ _ _ _ H).
Qed.

(** X11. A candidate on which the validator throws ends the cycle on the
    spot: the candidates behind it are not looked at, the queue is not
    drained, and the cycle ends in the [catch] of the loop with no field
    of the agent changed.  As nothing records the candidate, the same
    happens at every poll that returns it first. *)
Theorem cycle_aborted_by_malformed (env : Env) (s : RelayerAgent)
    (proof : Proof) (rest : list Proof) (message : string) :
  fetched env s = proof :: rest ->
  validationThrows (TRUSTED_TEE_SIGNER CONFIG) (dateNow env (S (clock s))) proof message ->
  cycle env s
  = (Normal tt,
     mkAgent (processedProofs s) (isRunning s) (executionQueue s) (stats s)
       (2 + clock s)
       (console s ++ [Scanning; Found (S (List.length rest)); Validating proof;
                      MonitorError message])).
Proof.
  intros Hf Hthrow. unfold cycle, tryCatch. rewrite cycleTry_fetched, Hf.
  set (s1 := set_console (fun c => c ++ [Found (List.length (proof :: rest))])
               (set_clock S (set_console (fun c => c ++ [Scanning]) s))).
  assert (forOf (proof :: rest) (processCandidate env) s1
          = (Throw message, set_console (fun c => c ++ [Validating proof]) s1)) as Hloop.
  { apply forOf_cons_Throw, processCandidate_throws. by destruct s. }
  unfold bind at 1. unfold bind at 1. unfold print at 1, modify at 1. fold s1.
  rewrite Hloop. destruct s. unfoldM. simpl. by rewrite <- !app_assoc.
Qed.

(** The demo proof with an input amount that is not a number. *)
Definition garbledProof : Proof := {|
  batchId := "0x04";
  timestamp := 1700000000;
  user := "0x742d35Cc6634C0532925a3b844Bc9e7595f8fE21";
  tokenIn := "0x036CbD53842c5426634e7929541eC2318f3dCF7e";
  tokenOut := "0x4200000000000000000000000000000000000006";
  amountIn := "1e9";
  amountOut := "385000000000000000";
  clearingPrice := "2598420000";
  intentHash := "0xd4";
  userSignature := "0x";
  teeSignature := Some ("0x" ++ JS.repeat "d" 130)%string;
  teeSigner := TRUSTED_TEE_SIGNER CONFIG;
  merkleRoot := "0x";
  mevSaved := "0"
|}.

Lemma cycle_aborted_by_malformed_witness :
  let env := fileEnv [garbledProof; demoProof 1700000000] in
  (cycle env newAgent).1 = Normal tt /\
  stats (cycle env newAgent).2 = stats newAgent /\
  validations (console (cycle env newAgent).2) = [garbledProof].
Proof.
  lazy zeta.
  rewrite (cycle_aborted_by_malformed (fileEnv [garbledProof; demoProof 1700000000])
             newAgent garbledProof [demoProof 1700000000]
             "Cannot convert 1e9 to a BigInt").
  - repeat split.
  - reflexivity.
  - split; [reflexivity|]. split; [unfold fresh; simpl; lia|].
    split; [eexists; split; [reflexivity | simpl; lia]|].
    left. split; reflexivity.
Defined.

(** *** What the queue holds *)

(** The rules of the validator that do not depend on the time. *)
Definition validatedShape (p : Proof) : Prop :=
  signerTrusted (TRUSTED_TEE_SIGNER CONFIG) p /\
  signatureWellFormed p /\ amountsPositive p.

(** A queue of proofs of that shape stays one. *)
Definition queueShape (s s' : RelayerAgent) : Prop :=
  queueOk validatedShape s -> queueOk validatedShape s'.

#[local] Instance queueShape_refl : Reflexive queueShape.
Proof. intros s H. exact H. Qed.
#[local] Instance queueShape_trans : Transitive queueShape.
Proof. intros a b c Hab Hbc Ha. apply Hbc, Hab, Ha. Qed.

Lemma queueShape_same s s' : executionQueue s' = executionQueue s -> queueShape s s'.
Proof. intros H. unfold queueShape, queueOk. by rewrite H. Qed.

Ltac shapeLeaf := intros []; by apply queueShape_same.

Lemma queueShape_push p s :
  validatedShape p -> queueShape s (set_executionQueue (fun q => q ++ [p]) s).
Proof.
  intros Hp Hs. destruct s. unfold queueOk in *. simpl in *.
  apply Forall_app. split; [done | by apply Forall_singleton].
Qed.

Lemma determineOptimalTiming_queueShape env proof :
  always queueShape (determineOptimalTiming env proof).
Proof.
  intros s. apply queueShape_same.
  by destruct (determineOptimalTiming_sameAgent env proof s) as (_ & _ & ? & _).
Qed.

Lemma executeProof_queueShape env proof : always queueShape (executeProof env proof).
Proof. intros s. apply queueShape_same, executeProof_queue. Qed.

(** A candidate reaches the queue only through an acceptance. *)
Lemma processCandidate_queueShape env proof :
  always queueShape (processCandidate env proof).
Proof.
  intros s. unfold processCandidate. unfold bind at 1. rewrite validateProof_at.
  pose proof (accepted_inv (TRUSTED_TEE_SIGNER CONFIG) (dateNow env (clock s)) proof s)
    as Hacc.
  destruct (validateProofAt_pure (TRUSTED_TEE_SIGNER CONFIG) (dateNow env (clock s)) proof)
    as (outcome & out & Hrun).
  rewrite Hrun in Hacc |- *.
  assert (queueShape s (set_console (fun c => c ++ Validating proof :: out) s)) as H0
    by (apply queueShape_same; by destruct s).
  destruct outcome as [[]|e]; simpl; [|done..].
  destruct Hacc as (H1 & _ & H3 & H4); [done|].
  etransitivity; [exact H0|].
  assert (always queueShape
            (let! shouldExecute := determineOptimalTiming env proof in
             if (shouldExecute : bool) then executeProof env proof >> ret tt
             else modify (set_executionQueue (fun q => q ++ [proof])) >>
                  print (Queued proof))) as Hrest.
  { apply always_bind; [apply _ | apply determineOptimalTiming_queueShape |].
    intros []; alwaysM.
    - apply executeProof_queueShape.
    - intros s0. by apply queueShape_push.
    - shapeLeaf. }
  apply Hrest.
Qed.

Lemma cycle_queueShape env : always queueShape (cycle env).
Proof.
  assert (forall s s', queueOk validatedShape s -> queueShape s s' ->
                       queueOk validatedShape s') as Hinv by (intros s s' Hs H; by apply H).
  assert (keeps queueShape validatedShape (processQueue env)) as Hdrain.
  { apply processQueue_keeps; try apply _.
    - intros l s _. destruct s. by apply queueShape_same.
    - intros [] _. apply Forall_nil_2.
    - intros p s Hp. by apply queueShape_push.
    - intros. apply determineOptimalTiming_queueShape.
    - intros. apply executeProof_queueShape. }
  intros s Hs. unfold cycle, tryCatch. rewrite cycleTry_fetched.
  set (s1 := set_clock S (set_console (fun c => c ++ [Scanning]) s)).
  assert (queueOk validatedShape s1) as Hs1 by by destruct s.
  assert (keeps queueShape validatedShape
            ((match fetched env s with
              | [] => ret tt
              | _ => print (Found (List.length (fetched env s))) >>
                     forOf (fetched env s) (processCandidate env)
              end) >> processQueue env >> sleep (POLL_INTERVAL_MS CONFIG))) as Htry.
  { apply keeps_bind; [apply _ | done | |].
    - apply keeps_always. destruct (fetched env s) as [|p l]; [apply always_ret; apply _|].
      apply always_bind; [apply _ | |intros _].
      + apply always_print. shapeLeaf.
      + apply always_forOf; [apply _..|]. intros. apply processCandidate_queueShape.
    - intros _. apply keeps_bind; [apply _ | done | done |].
      intros _. apply keeps_always, always_sleep; [apply _..|]. shapeLeaf. }
  specialize (Htry s1 Hs1).
  match type of Htry with queueShape _ (?r).2 => destruct r as [[[]|e] s2] end;
    simpl in *; [by apply Htry|].
  assert (always queueShape
            (print (MonitorError e) >> sleep (POLL_INTERVAL_MS CONFIG * 2))) as Hcatch
    by (alwaysM; shapeLeaf).
  apply Hcatch. by apply Htry.
Qed.

Lemma monitorLoop_queueShape env fuel : always queueShape (monitorLoop env fuel).
Proof.
  induction fuel as [|fuel IH]; simpl; [apply always_ret; apply _|].
  apply always_bind; [apply _ | apply always_reads; apply _ |].
  intros []; [|apply always_ret; apply _].
  apply always_bind; [apply _ | apply cycle_queueShape | done].
Qed.

(** X12. Every proof in the queue has passed the validator: through any run
    of the loop the queue holds only proofs with the trusted signer, a
    well-formed signature and positive amounts.  In particular their
    input amounts are numbers, so the timing advisor does not throw on
    them for that reason. *)
Theorem queue_holds_validated (env : Env) (fuel : nat) (s : RelayerAgent) :
  Forall validatedShape (executionQueue s) ->
  Forall validatedShape (executionQueue (monitorAndExecute env fuel s).2) /\
  Forall numericAmount (executionQueue (monitorAndExecute env fuel s).2).
Proof.
  intros Hs.
  assert (Forall validatedShape (executionQueue (monitorAndExecute env fuel s).2)) as H.
  { assert (always queueShape (monitorAndExecute env fuel)) as Hrun.
    { unfold monitorAndExecute. apply always_bind; [apply _ | |].
      - apply always_modify. shapeLeaf.
      - intros _. apply monitorLoop_queueShape. }
    by apply Hrun. }
  split; [done|]. eapply Forall_impl; [exact H|].
  intros p (_ & _ & a & b & Ha & _). by exists a.
Qed.

Lemma queue_holds_validated_witness :
  let env := steadyEnv (fun _ => 75000000000%N) in
  Forall numericAmount (executionQueue (monitorAndExecute env 2 newAgent).2) /\
  List.length (executionQueue (monitorAndExecute env 2 newAgent).2) = 2%nat.
Proof.
  split; [|reflexivity].
  apply (queue_holds_validated (steadyEnv (fun _ => 75000000000%N)) 2 newAgent).
  apply Forall_nil_2.
Defined.

(** *** A cycle under a high fee price *)














(** *** The loop keeps going *)

(** [isRunning] is as before and the clock has not gone back. *)
Definition keepsRunning (s s' : RelayerAgent) : Prop :=
  isRunning s' = isRunning s /\ (clock s <= clock s')%nat.

#[local] Instance keepsRunning_refl : Reflexive keepsRunning.
Proof. intros s. split; [done | lia]. Qed.
#[local] Instance keepsRunning_trans : Transitive keepsRunning.
Proof. intros a b c [? ?] [? ?]. split; [congruence | lia]. Qed.

Ltac runningLeaf := intros []; split; simpl; [done | lia].

Lemma executeProof_keepsRunning env proof : always keepsRunning (executeProof env proof).
Proof. intros s. runExecute s; split; simpl; done || lia. Qed.

Lemma determineOptimalTiming_keepsRunning env proof :
  always keepsRunning (determineOptimalTiming env proof).
Proof. unfold determineOptimalTiming, assessMEVRisk. alwaysM; runningLeaf. Qed.

Lemma validateProof_keepsRunning env proof :
  always keepsRunning (validateProof env proof).
Proof. unfold validateProof, validateProofAt. alwaysM; runningLeaf. Qed.

Lemma cycle_keepsRunning env : always keepsRunning (cycle env).
Proof.
  intros s.
  apply (cycle_keeps keepsRunning env anyProof anyProof); try apply _;
    try (intros; apply anyProof_all); try (intros; apply anyProof_admissible).
  - intros l. runningLeaf.
  - runningLeaf.
  - runningLeaf.
  - intros p. runningLeaf.
  - intros. apply validateProof_keepsRunning.
  - intros. apply determineOptimalTiming_keepsRunning.
  - intros. apply executeProof_keepsRunning.
Qed.

(** One iteration of the loop never throws: an error of its [try] block
    ends in its [catch]. *)
Lemma cycle_returns env s : (cycle env s).1 = Normal tt.
Proof.
  unfold cycle, tryCatch. destruct (cycleTry env s) as [[[]|e] s1]; [done|].
  by destruct s1.
Qed.

(** Both ways out of an iteration pass a [sleep]. *)
Lemma cycle_sleeps env s : (2 + clock s <= clock (cycle env s).2)%nat.
Proof.
  assert (forall (m k : M unit) s0,
            (clock s0 <= clock (m s0).2)%nat ->
            (forall s1, clock s1 <= clock (k s1).2)%nat ->
            forall ms ms',
            (S (clock s0)
             <= clock (tryCatch (m >> k >> sleep ms)
                         (fun e => print (MonitorError e) >> sleep ms') s0).2)%nat)
    as Hsleep.
  { intros m k s0 Hm Hk ms ms'. unfold tryCatch, bind at 1.
    destruct (m s0) as [[[]|e] s1]; simpl in Hm.
    - unfold bind at 1. specialize (Hk s1).
      destruct (k s1) as [[[]|e] s2]; simpl in Hk; destruct s2; unfoldM; simpl in *; lia.
    - destruct s1. unfoldM. simpl in *. lia. }
  unfold cycle, tryCatch. rewrite cycleTry_fetched.
  set (s1 := set_clock S (set_console (fun c => c ++ [Scanning]) s)).
  assert (clock s1 = S (clock s)) as Hs1 by by destruct s.
  set (A := match fetched env s with
            | [] => ret tt
            | _ => print (Found (List.length (fetched env s))) >>
                   forOf (fetched env s) (processCandidate env)
            end).
  assert (always keepsRunning A) as HA.
  { unfold A. destruct (fetched env s) as [|c0 cs]; [apply always_ret; apply _|].
    apply always_bind; [apply _ | apply always_print; runningLeaf | intros _].
    apply always_forOf; [apply _..|]. intros c _.
    apply (processCandidate_always keepsRunning env anyProof anyProof); try apply _;
      try done.
    - intros ln. runningLeaf.
    - intros q. runningLeaf.
    - intros. apply validateProof_keepsRunning.
    - intros. apply determineOptimalTiming_keepsRunning.
    - intros. apply executeProof_keepsRunning. }
  assert (forall s0, (clock s0 <= clock (processQueue env s0).2)%nat) as HQ.
  { intros s0.
    apply (processQueue_keeps keepsRunning env anyProof); try apply _.
    - intros l. runningLeaf.
    - runningLeaf.
    - intros q. runningLeaf.
    - intros. apply determineOptimalTiming_keepsRunning.
    - intros. apply executeProof_keepsRunning.
    - apply anyProof_all. }
  specialize (Hsleep A (processQueue env) s1 (proj2 (HA s1)) HQ
                (POLL_INTERVAL_MS CONFIG) (POLL_INTERVAL_MS CONFIG * 2)).
  unfold tryCatch in Hsleep. lia.
Qed.

Lemma monitorLoop_step env fuel s s1 :
  isRunning s = true -> cycle env s = (Normal tt, s1) ->
  monitorLoop env (S fuel) s = monitorLoop env fuel s1.
Proof. intros Hs Hrun. simpl. unfold bind, reads. by rewrite Hs, Hrun. Qed.

Lemma monitorLoop_polls env fuel :
  forall s, isRunning s = true ->
  (monitorLoop env fuel s).1 = Normal tt /\
  isRunning (monitorLoop env fuel s).2 = true /\
  (2 * fuel + clock s <= clock (monitorLoop env fuel s).2)%nat.
Proof.
  induction fuel as [|fuel IH]; intros s Hs; [simpl; repeat split; done || lia|].
  pose proof (cycle_returns env s) as Hret.
  pose proof (cycle_keepsRunning env s) as [Hrun _].
  pose proof (cycle_sleeps env s) as Hclock.
  destruct (cycle env s) as [[[]|e] s1] eqn:Hcycle; simpl in Hret, Hrun, Hclock;
    [|done].
  rewrite (monitorLoop_step _ _ _ _ Hs Hcycle).
  destruct (IH s1) as (H1 & H2 & H3); [congruence|].
  repeat split; [done.. | lia].
Qed.

(** X14. Nothing that happens in the loop ends it: for any provider and any
    source, [monitorAndExecute] runs every iteration it is given, no
    error leaves it, [isRunning] is still set afterwards, and each
    iteration has passed at least two suspension points, so the loop
    never spins without waiting. *)
Theorem monitorAndExecute_keeps_polling (env : Env) (fuel : nat) (s : RelayerAgent) :
  (monitorAndExecute env fuel s).1 = Normal tt /\
  isRunning (monitorAndExecute env fuel s).2 = true /\
  (2 * fuel + clock s <= clock (monitorAndExecute env fuel s).2)%nat.
Proof.
  unfold monitorAndExecute, bind, modify.
  destruct (monitorLoop_polls env fuel (set_isRunning true s)) as (H1 & H2 & H3);
    [by destruct s|].
  repeat split; [done.. |]. by destruct s.
Qed.

(** *** How the counters relate *)

(** Every processed proof is counted as a success or as a failure, and
    at most as both. *)
Definition countersBalanced (s s' : RelayerAgent) : Prop :=
  (proofsProcessed (stats s') + successfulExecutions (stats s) + failedExecutions (stats s)
   <= proofsProcessed (stats s) + successfulExecutions (stats s')
      + failedExecutions (stats s'))%nat /\
  (successfulExecutions (stats s') + failedExecutions (stats s')
   + 2 * proofsProcessed (stats s)
   <= successfulExecutions (stats s) + failedExecutions (stats s)
      + 2 * proofsProcessed (stats s'))%nat.

#[local] Instance countersBalanced_refl : Reflexive countersBalanced.
Proof. intros s. unfold countersBalanced. lia. Qed.
#[local] Instance countersBalanced_trans : Transitive countersBalanced.
Proof. intros a b c. unfold countersBalanced. lia. Qed.

Ltac balancedLeaf :=
  intros [? ? ? [? ? ? ? ?] ? ?]; unfold countersBalanced; simpl; lia.

Lemma executeProof_countersBalanced env proof :
  always countersBalanced (executeProof env proof).
Proof. intros s. runExecute s; unfold countersBalanced; simpl; lia. Qed.

Lemma determineOptimalTiming_countersBalanced env proof :
  always countersBalanced (determineOptimalTiming env proof).
Proof. unfold determineOptimalTiming, assessMEVRisk. alwaysM; balancedLeaf. Qed.

Lemma validateProof_countersBalanced env proof :
  always countersBalanced (validateProof env proof).
Proof. unfold validateProof, validateProofAt. alwaysM; balancedLeaf. Qed.

(** X15. Over any run of the loop, the successes and failures counted since
    the start number at least the proofs processed since then and at
    most twice as many: every call of [executeProof] is counted as a
    success or a failure, and as both when its stats update throws.
    From a fresh agent, [proofsProcessed <= successfulExecutions +
    failedExecutions <= 2 * proofsProcessed] at all times. *)
Theorem counters_balanced (env : Env) (fuel : nat) (s : RelayerAgent) :
  let s' := (monitorAndExecute env fuel s).2 in
  countersBalanced s s' /\
  (stats s = mkStats 0 0 0 0 0 ->
   (proofsProcessed (stats s')
    <= successfulExecutions (stats s') + failedExecutions (stats s')
    <= 2 * proofsProcessed (stats s'))%nat).
Proof.
  assert (countersBalanced s (monitorAndExecute env fuel s).2) as H.
  { apply (monitorAndExecute_keeps countersBalanced env anyProof anyProof);
      try apply _; try (intros; apply anyProof_all);
      try (intros; apply anyProof_admissible).
    - intros l. balancedLeaf.
    - balancedLeaf.
    - balancedLeaf.
    - intros p. balancedLeaf.
    - intros b. balancedLeaf.
    - intros. apply validateProof_countersBalanced.
    - intros. apply determineOptimalTiming_countersBalanced.
    - intros. apply executeProof_countersBalanced. }
  split; [exact H|]. intros Hzero. unfold countersBalanced in H.
  rewrite Hzero in H. simpl in H. lia.
Qed.

(** *** How identifiers get into [processedProofs] *)

(** Whatever is in [processedProofs] now was there before or is the
    identifier of a proof [executeProof] was called on in between. *)
Definition markedByExecution (s s' : RelayerAgent) : Prop :=
  exists out,
    printed s s' out /\
    forall h, h ∈ processedProofs s' ->
              h ∈ processedProofs s \/ h ∈ intentHash <$> executions out.

#[local] Instance markedByExecution_refl : Reflexive markedByExecution.
Proof.
  intros s. exists []. unfold printed. rewrite app_nil_r. split; [done|]. by left.
Qed.

#[local] Instance markedByExecution_trans : Transitive markedByExecution.
Proof.
  intros a b c (o1 & H1 & M1) (o2 & H2 & M2). exists (o1 ++ o2).
  unfold printed, executions in *. rewrite H2, H1, app_assoc. split; [done|].
  intros h Hh. rewrite omap_app, fmap_app, elem_of_app.
  destruct (M2 h Hh) as [Hb|?]; [|tauto]. destruct (M1 h Hb); tauto.
Qed.

Lemma markedByExecution_same s s' :
  processedProofs s' = processedProofs s -> (exists out, printed s s' out) ->
  markedByExecution s s'.
Proof. intros Hp [out Hout]. exists out. split; [done|]. rewrite Hp. by left. Qed.

Ltac markedLeaf :=
  intros []; apply markedByExecution_same; [done|]; unfold printed; simpl;
  first [ by eexists [_] | exists []; by rewrite app_nil_r ].

Lemma executeProof_markedByExecution env proof :
  always markedByExecution (executeProof env proof).
Proof.
  assert (forall (X : gset string) h k, h ∈ X ∪ {[k]} -> h ∈ X \/ h = k) as Hadd.
  { intros X h k. rewrite elem_of_union, elem_of_singleton. tauto. }
  assert (forall (X : gset string) h k, h ∈ (X ∪ {[k]}) ∖ {[k]} -> h ∈ X \/ h = k) as Hdel.
  { intros X h k. rewrite elem_of_difference, elem_of_union, elem_of_singleton. tauto. }
  intros s. runExecute s.
  all: eexists; unfold printed; simpl; rewrite <- !app_assoc; (split; [reflexivity|]);
    simpl; intros h Hh; rewrite list_elem_of_singleton; eauto.
Qed.

Lemma determineOptimalTiming_markedByExecution env proof :
  always markedByExecution (determineOptimalTiming env proof).
Proof. unfold determineOptimalTiming, assessMEVRisk. alwaysM; markedLeaf. Qed.

Lemma validateProof_markedByExecution env proof :
  always markedByExecution (validateProof env proof).
Proof. unfold validateProof, validateProofAt. alwaysM; markedLeaf. Qed.

(** X16. An identifier enters [processedProofs] through [executeProof] only:
    after any run of the loop, every identifier in the set was in it
    before the run or belongs to a proof that [executeProof] was called
    on during the run.  Rejections and deferrals mark nothing. *)
Theorem processedProofs_only_by_execution (env : Env) (fuel : nat) (s : RelayerAgent) :
  exists out,
    printed s (monitorAndExecute env fuel s).2 out /\
    forall h, h ∈ processedProofs (monitorAndExecute env fuel s).2 ->
              h ∈ processedProofs s \/
              exists p, p ∈ executions out /\ intentHash p = h.
Proof.
  assert (markedByExecution s (monitorAndExecute env fuel s).2) as (out & Hout & H).
  { apply (monitorAndExecute_keeps markedByExecution env anyProof anyProof);
      try apply _; try (intros; apply anyProof_all);
      try (intros; apply anyProof_admissible).
    - intros l s0 _. revert s0. markedLeaf.
    - markedLeaf.
    - markedLeaf.
    - intros p s0 _. revert s0. markedLeaf.
    - intros b. markedLeaf.
    - intros. apply validateProof_markedByExecution.
    - intros. apply determineOptimalTiming_markedByExecution.
    - intros. apply executeProof_markedByExecution. }
  exists out. split; [done|]. intros h Hh. destruct (H h Hh) as [|Hex]; [by left|].
  right. apply list_elem_of_fmap in Hex as (p & -> & Hp). eauto.
Qed.

(* ------------------------------------------------------------------ *)
(** ** The transaction data and the transaction hash *)
(* ------------------------------------------------------------------ *)

Lemma append_cons c (a b : string) : (String c a ++ b)%string = String c (a ++ b).
Proof. reflexivity. Qed.

Lemma length_append (a b : string) :
  String.length (a ++ b) = (String.length a + String.length b)%nat.
Proof.
  induction a as [|c a IH]; [done|]. rewrite append_cons. simpl. by rewrite IH.
Qed.

Lemma length_repeat c n : String.length (JS.repeat c n) = n.
Proof. induction n as [|n IH]; simpl; [done | by rewrite IH]. Qed.

Lemma append_empty_r (a : string) : (a ++ "")%string = a.
Proof. induction a as [|c a IH]; [done|]. by rewrite append_cons, IH. Qed.

Lemma length_slice0 n s :
  (n <= String.length s)%nat -> String.length (JS.slice0 s n) = n.
Proof.
  unfold JS.slice0. revert s. induction n as [|n IH]; intros s Hn.
  - by destruct s.
  - destruct s as [|c s]; simpl in *; [lia|]. rewrite IH; [done | lia].
Qed.

Lemma slice0_all s : JS.slice0 s (String.length s) = s.
Proof.
  unfold JS.slice0. induction s as [|c s IH]; simpl; [done | by rewrite IH].
Qed.

Lemma slice0_prefix n s : exists rest, s = (JS.slice0 s n ++ rest)%string.
Proof.
  unfold JS.slice0. revert s. induction n as [|n IH]; intros s.
  - exists s. by destruct s.
  - destruct s as [|c s]; simpl; [by exists ""%string|].
    destruct (IH s) as [rest Hrest]. exists rest. by rewrite append_cons, <- Hrest.
Qed.

(** [batchId.padEnd(66, '0').slice(0, 66)] *)
Definition normalisedBatchId (proof : Proof) : string :=
  JS.slice0 (JS.padEnd (batchId proof) 66 "0") 66.

(** X17. [executeProof] sends the batch identifier as exactly 66 code units,
    whatever its length in the proof: a shorter one is filled up with
    ['0'] on the right, a longer one is cut after the 66th unit, one of
    66 units goes through unchanged.  With numeric amounts the struct is
    built without touching the agent and with a deadline 300 seconds
    after the current time. *)
Theorem buildProofStruct_batchId (env : Env) (proof : Proof) (s : RelayerAgent) :
  String.length (normalisedBatchId proof) = 66%nat /\
  ((String.length (batchId proof) <= 66)%nat ->
   normalisedBatchId proof
   = (batchId proof ++ JS.repeat "0" (66 - String.length (batchId proof)))%string) /\
  ((66 <= String.length (batchId proof))%nat ->
   exists rest, batchId proof = (normalisedBatchId proof ++ rest)%string) /\
  (forall aIn aOut price,
     JS.BigInt (amountIn proof) = Some aIn ->
     JS.BigInt (amountOut proof) = Some aOut ->
     JS.BigInt (clearingPrice proof) = Some price ->
     exists ps,
       buildProofStruct env proof s = (Normal ps, s) /\
       ps_batchId ps = normalisedBatchId proof /\
       ps_amountIn ps = aIn /\ ps_amountOut ps = aOut /\ ps_clearingPrice ps = price /\
       ps_intentHash ps = intentHash proof /\
       ps_deadline ps = dateNow env (clock s) + 300).
Proof.
  unfold normalisedBatchId, JS.padEnd.
  split; [|split; [|split]].
  - apply length_slice0. rewrite length_append, length_repeat. lia.
  - intros Hshort.
    assert (66 = String.length
                   (batchId proof ++ JS.repeat "0" (66 - String.length (batchId proof))))%nat
      as Hlen by (rewrite length_append, length_repeat; lia).
    rewrite Hlen at 2. apply slice0_all.
  - intros Hlong.
    replace (66 - String.length (batchId proof))%nat with 0%nat by lia. simpl.
    rewrite append_empty_r. apply slice0_prefix.
  - intros aIn aOut price Ha Hb Hc. eexists. unfold buildProofStruct. unfoldM.
    rewrite Ha, Hb, Hc. simpl. split; [reflexivity|]. repeat split.
Qed.

Definition lowerHex (c : ascii) : bool :=
  let n := N_of_ascii c in
  ((48 <=? n) && (n <=? 57) || (97 <=? n) && (n <=? 102))%N.

Lemma hexDigit_lowerHex n : lowerHex (JS.hexDigit n) = true.
Proof.
  unfold JS.hexDigit. pose proof (Nat.mod_upper_bound n 16) as H.
  destruct (n mod 16)%nat as [|k]; [done|].
  do 15 (destruct k as [|k]; [done|]). lia.
Qed.

Lemma length_string_of_list (l : list ascii) :
  String.length (string_of_list_ascii l) = List.length l.
Proof. induction l as [|c l IH]; simpl; [done | by rewrite IH]. Qed.

(** X18. The hash a successful [executeProof] returns always has the shape of
    a 32-byte hash: ["0x"] followed by 64 lower-case hexadecimal digits,
    66 code units in all, whatever [Math.random] yields. *)
Theorem executeProof_txHash_shape (env : Env) (proof : Proof) (s : RelayerAgent)
    (txHash : string) :
  (executeProof env proof s).1 = Normal (ExecSuccess txHash) ->
  String.length txHash = 66%nat /\
  exists digits,
    txHash = ("0x" ++ string_of_list_ascii digits)%string /\
    List.length digits = 64%nat /\
    Forall (fun c => lowerHex c = true) digits.
Proof.
  assert (forall t, String.length (mockTxHash env t) = 66%nat /\
            exists digits,
              mockTxHash env t = ("0x" ++ string_of_list_ascii digits)%string /\
              List.length digits = 64%nat /\
              Forall (fun c => lowerHex c = true) digits) as Hshape.
  { intros t. unfold mockTxHash. split.
    - by rewrite length_append, length_string_of_list, length_map, length_seq.
    - eexists. split; [reflexivity|]. split; [by rewrite length_map, length_seq|].
      apply Forall_forall. intros c Hc. apply list_elem_of_In, in_map_iff in Hc.
      destruct Hc as (i & <- & _). apply hexDigit_lowerHex. }
  intros H. revert H. runExecute s; intros [= <-]; apply Hshape.
Qed.

Lemma executeProof_txHash_shape_witness :
  exists txHash,
    (executeProof (steadyEnv (fun _ => 5000000000%N)) (demoProof 1700000000) newAgent).1
    = Normal (ExecSuccess txHash) /\ String.length txHash = 66%nat.
Proof.
  eexists. split; [reflexivity|].
  apply (executeProof_txHash_shape (steadyEnv (fun _ => 5000000000%N))
           (demoProof 1700000000) newAgent).
  reflexivity.
Defined.

(* ------------------------------------------------------------------ *)
(** ** The page's helpers: [parseAmount] and [getStageStatus] *)
(* ------------------------------------------------------------------ *)

(** [s.split(sep)] for a one-character separator: the first field and
    the fields after it (the array is never empty). *)
Fixpoint JS_split (sep : ascii) (s : string) : string * list string :=
  match s with
  | EmptyString => (EmptyString, [])
  | String c r =>
      let (h, t) := JS_split sep r in
      if Ascii.eqb c sep then (EmptyString, h :: t) else (String c h, t)
  end.

(** [parseAmount(amount, decimals)]; [None] is the [SyntaxError] of
    [BigInt]. *)
Definition parseAmount (amount : string) (decimals : nat) : option Z :=
  let (whole, rest) := JS_split "." amount in
  let fraction := match rest with f :: _ => f | [] => EmptyString end in
  let paddedFraction := JS.slice0 (JS.padEnd fraction decimals "0") decimals in
  JS.BigInt (whole ++ paddedFraction).

Example parseAmount_usdc : parseAmount "1000" 6 = Some 1000000000.
Proof. reflexivity. Qed.
Example parseAmount_half : parseAmount "0.5" 18 = Some 500000000000000000.
Proof. reflexivity. Qed.
Example parseAmount_exponent : parseAmount "1e3" 6 = None.
Proof. reflexivity. Qed.

Definition decimalDigit (c : ascii) : bool :=
  let n := N_of_ascii c in ((48 <=? n) && (n <=? 57))%N.

Fixpoint allDecimal (s : string) : bool :=
  match s with
  | EmptyString => true
  | String c r => decimalDigit c && allDecimal r
  end.

(** The number a string of decimal digits denotes, continuing [acc]. *)
Fixpoint naturalFrom (acc : Z) (s : string) : Z :=
  match s with
  | EmptyString => acc
  | String c r => naturalFrom (acc * 10 + (Z.of_N (N_of_ascii c) - 48)) r
  end.

Definition natural (s : string) : Z := naturalFrom 0 s.

Lemma append_assoc (a b c : string) : ((a ++ b) ++ c = a ++ (b ++ c))%string.
Proof. induction a as [|x a IH]; [done|]. by rewrite !append_cons, IH. Qed.

Lemma allDecimal_app (a b : string) :
  allDecimal (a ++ b) = allDecimal a && allDecimal b.
Proof.
  induction a as [|c a IH]; [done|]. rewrite append_cons. simpl.
  by rewrite IH, andb_assoc.
Qed.

Lemma allDecimal_repeat n : allDecimal (JS.repeat "0" n) = true.
Proof. induction n as [|n IH]; [done|]. simpl. by rewrite IH. Qed.

Lemma allDecimal_rev (s : string) : allDecimal (JS.rev s) = allDecimal s.
Proof.
  induction s as [|c s IH]; [done|]. simpl.
  rewrite allDecimal_app, IH. simpl. rewrite andb_true_r. apply andb_comm.
Qed.

Lemma rev_app (a b : string) : JS.rev (a ++ b) = (JS.rev b ++ JS.rev a)%string.
Proof.
  induction a as [|c a IH].
  - simpl. by rewrite append_empty_r.
  - rewrite append_cons. simpl. by rewrite IH, append_assoc.
Qed.

Lemma rev_involutive (s : string) : JS.rev (JS.rev s) = s.
Proof.
  induction s as [|c s IH]; [done|]. simpl. rewrite rev_app, IH. reflexivity.
Qed.

Lemma decimalDigit_not_space c : decimalDigit c = true -> JS.isStrWhiteSpace c = false.
Proof.
  unfold decimalDigit, JS.isStrWhiteSpace. intros H.
  apply andb_true_iff in H as [H1 H2]. apply N.leb_le in H1, H2.
  apply orb_false_iff; split; [apply orb_false_iff; split|].
  - apply andb_false_iff. right. apply N.leb_gt. lia.
  - apply N.eqb_neq. lia.
  - apply N.eqb_neq. lia.
Qed.

Lemma dropWhiteSpace_decimal s : allDecimal s = true -> JS.dropWhiteSpace s = s.
Proof.
  destruct s as [|c r]; [done|]. simpl. intros H.
  apply andb_true_iff in H as [H _]. by rewrite (decimalDigit_not_space c H).
Qed.

Lemma trim_decimal s : allDecimal s = true -> JS.trim s = s.
Proof.
  intros H. unfold JS.trim. rewrite (dropWhiteSpace_decimal s H).
  rewrite dropWhiteSpace_decimal by (by rewrite allDecimal_rev).
  apply rev_involutive.
Qed.

Lemma digitsFrom_decimal s : forall acc,
  allDecimal s = true -> JS.digitsFrom 10 acc s = Some (naturalFrom acc s).
Proof.
  induction s as [|c r IH]; intros acc H; [done|]. simpl in *.
  apply andb_true_iff in H as [Hc Hr].
  assert (JS.digitValue 10 c = Some (Z.of_N (N_of_ascii c) - 48)) as ->.
  { unfold JS.digitValue, decimalDigit in *.
    apply andb_true_iff in Hc as [H1 H2]. apply N.leb_le in H1, H2.
    assert ((48 <=? Z.of_N (N_of_ascii c)) = true) as -> by (apply Z.leb_le; lia).
    assert ((Z.of_N (N_of_ascii c) <=? 57) = true) as -> by (apply Z.leb_le; lia).
    simpl.
    by assert ((Z.of_N (N_of_ascii c) - 48 <? 10) = true) as -> by (apply Z.ltb_lt; lia). }
  by apply IH.
Qed.

(** On a string of decimal digits [BigInt] is the number it denotes. *)
Lemma BigInt_decimal s : allDecimal s = true -> JS.BigInt s = Some (natural s).
Proof.
  intros H. unfold JS.BigInt. rewrite (trim_decimal s H).
  destruct s as [|c r]; [done|].
  transitivity (JS.digits 10 (String c r)); [|by apply digitsFrom_decimal].
  simpl in H. apply andb_true_iff in H as [Hc Hr].
  destruct c as [[] [] [] [] [] [] [] []]; try discriminate Hc; try reflexivity.
  destruct r as [|c r]; [reflexivity|].
  simpl in Hr. apply andb_true_iff in Hr as [Hc' _].
  destruct c as [[] [] [] [] [] [] [] []]; try discriminate Hc'; reflexivity.
Qed.

Lemma naturalFrom_app a b acc :
  naturalFrom acc (a ++ b) = naturalFrom (naturalFrom acc a) b.
Proof.
  revert acc. induction a as [|c a IH]; intros acc; [done|].
  rewrite append_cons. simpl. apply IH.
Qed.

Lemma naturalFrom_shift s : forall acc,
  naturalFrom acc s = acc * 10 ^ Z.of_nat (String.length s) + natural s.
Proof.
  unfold natural. induction s as [|c r IH]; intros acc.
  - simpl. lia.
  - cbn [naturalFrom String.length]. rewrite IH, (IH (0 * 10 + _)).
    rewrite Nat2Z.inj_succ, Z.pow_succ_r by lia. lia.
Qed.

Lemma natural_zeros n : natural (JS.repeat "0" n) = 0.
Proof.
  unfold natural. induction n as [|n IH]; [done|]. simpl. exact IH.
Qed.

Lemma JS_split_decimal w :
  allDecimal w = true ->
  JS_split "." w = (w, []) /\
  forall r, JS_split "." (w ++ String "." r)
            = (w, fst (JS_split "." r) :: snd (JS_split "." r)).
Proof.
  induction w as [|c w IH]; intros H.
  - split; [done|]. intros r. simpl. by destruct (JS_split "." r).
  - simpl in H. apply andb_true_iff in H as [Hc Hw].
    destruct (IH Hw) as [IH1 IH2].
    assert (Ascii.eqb c "." = false) as Hdot.
    { apply Ascii.eqb_neq. intros ->. discriminate Hc. }
    split.
    + simpl. by rewrite IH1, Hdot.
    + intros r. rewrite append_cons. simpl. by rewrite IH2, Hdot.
Qed.

Lemma JS_split_prefix f extra :
  allDecimal f = true ->
  exists g, fst (JS_split "." (f ++ extra)) = (f ++ g)%string.
Proof.
  induction f as [|c f IH]; intros H.
  - by exists (fst (JS_split "." extra)).
  - simpl in H. apply andb_true_iff in H as [Hc Hf].
    destruct (IH Hf) as [g Hg]. exists g.
    assert (Ascii.eqb c "." = false) as Hdot.
    { apply Ascii.eqb_neq. intros ->. discriminate Hc. }
    rewrite !append_cons. simpl.
    destruct (JS_split "." (f ++ extra)) as [h t]. rewrite Hdot. simpl in *.
    by rewrite Hg.
Qed.

Lemma slice0_app a b : JS.slice0 (a ++ b) (String.length a) = a.
Proof.
  unfold JS.slice0. induction a as [|c a IH].
  - by destruct b.
  - rewrite append_cons. simpl. by rewrite IH.
Qed.

(** X19. [parseAmount] on decimal notation.  For digit strings [w] and [f]:
    a whole number [w] gives [w * 10^decimals]; [w.f] with at most
    [decimals] fraction digits gives the fixed-point value exactly; and
    with [decimals] fraction digits already there, whatever follows them
    (more digits, a second dot, any text) is dropped without rounding
    and without an error. *)
Theorem parseAmount_decimal (w f : string) (decimals : nat) :
  allDecimal w = true -> allDecimal f = true ->
  parseAmount w decimals = Some (natural w * 10 ^ Z.of_nat decimals) /\
  ((String.length f <= decimals)%nat ->
   parseAmount (w ++ String "." f) decimals
   = Some (natural w * 10 ^ Z.of_nat decimals
           + natural f * 10 ^ Z.of_nat (decimals - String.length f))) /\
  (String.length f = decimals ->
   forall extra,
     parseAmount (w ++ String "." (f ++ extra)) decimals
     = Some (natural w * 10 ^ Z.of_nat decimals + natural f)).
Proof.
  intros Hw Hf. destruct (JS_split_decimal w Hw) as [Hwhole Hdot].
  assert (forall k, (String.length f <= k)%nat ->
            JS.slice0 (JS.padEnd f k "0") k
            = (f ++ JS.repeat "0" (k - String.length f))%string) as Hpad.
  { intros k Hk. unfold JS.padEnd.
    set (t := (f ++ JS.repeat "0" (k - String.length f))%string).
    assert (String.length t = k) as Hlen
      by (unfold t; rewrite length_append, length_repeat; lia).
    rewrite <- Hlen. apply slice0_all. }
  split; [|split].
  - unfold parseAmount. rewrite Hwhole.
    assert (JS.slice0 (JS.padEnd "" decimals "0") decimals = JS.repeat "0" decimals)
      as ->.
    { unfold JS.padEnd. simpl String.length. rewrite Nat.sub_0_r.
      change ("" ++ JS.repeat "0" decimals)%string with (JS.repeat "0" decimals).
      rewrite <- (length_repeat "0" decimals) at 2. apply slice0_all. }
    rewrite BigInt_decimal by (by rewrite allDecimal_app, Hw, allDecimal_repeat).
    unfold natural at 1. rewrite naturalFrom_app, naturalFrom_shift.
    rewrite length_repeat, natural_zeros. fold (natural w). f_equal. lia.
  - intros Hlen. unfold parseAmount. rewrite Hdot.
    destruct (JS_split_decimal f Hf) as [-> _]. simpl fst.
    rewrite (Hpad decimals Hlen).
    rewrite BigInt_decimal
      by (by rewrite !allDecimal_app, Hw, Hf, allDecimal_repeat).
    unfold natural at 1. rewrite !naturalFrom_app.
    rewrite (naturalFrom_shift (JS.repeat _ _)), length_repeat, natural_zeros.
    rewrite (naturalFrom_shift f). fold (natural w). f_equal.
    replace (Z.of_nat decimals)
      with (Z.of_nat (String.length f) + Z.of_nat (decimals - String.length f)) by lia.
    rewrite Z.pow_add_r by lia. lia.
  - intros Hlen extra. unfold parseAmount. rewrite Hdot.
    destruct (JS_split_prefix f extra Hf) as [g ->].
    assert (JS.slice0 (JS.padEnd (f ++ g) decimals "0") decimals = f) as ->.
    { unfold JS.padEnd. rewrite append_assoc, <- Hlen. apply slice0_app. }
    rewrite BigInt_decimal by (by rewrite allDecimal_app, Hw, Hf).
    unfold natural at 1. rewrite naturalFrom_app, (naturalFrom_shift f), Hlen.
    fold (natural w). reflexivity.
Qed.

Lemma parseAmount_decimal_witness :
  allDecimal "12" = true /\ allDecimal "345678" = true /\
  parseAmount "12" 6 = Some 12000000 /\
  parseAmount "12.345678" 6 = Some 12345678 /\
  parseAmount "12.3456789.x" 6 = Some 12345678.
Proof.
  destruct (parseAmount_decimal "12" "345678" 6 eq_refl eq_refl) as (H1 & H2 & H3).
  split; [reflexivity|]. split; [reflexivity|].
  split; [exact H1|]. split.
  - apply H2. simpl. lia.
  - exact (H3 eq_refl "9.x"%string).
Defined.

(** [a.indexOf(x)] on an array of strings: [-1] when [x] is absent. *)
Fixpoint indexOfFrom (i : Z) (a : list string) (x : string) : Z :=
  match a with
  | [] => -1
  | y :: r => if String.eqb y x then i else indexOfFrom (i + 1) r x
  end.

Definition indexOf (a : list string) (x : string) : Z := indexOfFrom 0 a x.

Inductive StageStatus := Pending | Active | Complete.

Definition stageOrder : list string :=
  ["idle"; "signed"; "submitted"; "matching"; "executing"; "complete"]%string.

(** The keys of the five stages the pipeline shows, in order. *)
Definition stageKeys : list string :=
  ["signed"; "submitted"; "matching"; "executing"; "complete"]%string.

(** [getStageStatus(stageKey)] under [status.stage = stage]. *)
Definition getStageStatus (stage stageKey : string) : StageStatus :=
  let currentIndex := indexOf stageOrder stage in
  let stageIndex := indexOf stageOrder stageKey in
  if currentIndex >? stageIndex then Complete
  else if currentIndex =? stageIndex then Active
  else Pending.

(** X20. What the pipeline shows, for any current stage.  The five stages
    read, from the left: finished ones, then at most one active one,
    then pending ones.  In the stages ["idle"] and ["error"] (and any
    other that is not in the order) all five are pending, so an error
    clears the progress made; the last stage is never shown as finished,
    in the stage ["complete"] it is the active one. *)
Theorem getStageStatus_pipeline (stage : string) :
  let i := indexOf stageOrder stage in
  -1 <= i <= 5 /\
  (i = -1 <-> stage ∉ stageOrder) /\
  (i <= 0 -> getStageStatus stage <$> stageKeys = replicate 5 Pending) /\
  (1 <= i ->
   getStageStatus stage <$> stageKeys
   = replicate (Z.to_nat (i - 1)) Complete ++ Active
       :: replicate (Z.to_nat (5 - i)) Pending) /\
  getStageStatus stage "complete" <> Complete.
Proof.
  unfold getStageStatus, indexOf, stageOrder, stageKeys. cbn [indexOfFrom].
  assert (forall a b : string, (a =? b)%string = false -> b <> a) as Hne
    by (intros a b H ->; by rewrite String.eqb_refl in H).
  destruct ("idle" =? stage)%string eqn:E0;
    [apply String.eqb_eq in E0 as <-; vm_compute; repeat split; try done;
     try (intros H; exfalso; apply H; repeat constructor); intros [=]|].
  destruct ("signed" =? stage)%string eqn:E1;
    [apply String.eqb_eq in E1 as <-; vm_compute; repeat split; try done;
     try (intros H; exfalso; apply H; repeat constructor); intros [=]|].
  destruct ("submitted" =? stage)%string eqn:E2;
    [apply String.eqb_eq in E2 as <-; vm_compute; repeat split; try done;
     try (intros H; exfalso; apply H; repeat constructor); intros [=]|].
  destruct ("matching" =? stage)%string eqn:E3;
    [apply String.eqb_eq in E3 as <-; vm_compute; repeat split; try done;
     try (intros H; exfalso; apply H; repeat constructor); intros [=]|].
  destruct ("executing" =? stage)%string eqn:E4;
    [apply String.eqb_eq in E4 as <-; vm_compute; repeat split; try done;
     try (intros H; exfalso; apply H; repeat constructor); intros [=]|].
  destruct ("complete" =? stage)%string eqn:E5;
    [apply String.eqb_eq in E5 as <-; vm_compute; repeat split; try done;
     try (intros H; exfalso; apply H; repeat constructor); intros [=]|].
  apply Hne in E0, E1, E2, E3, E4, E5.
  split; [lia|]. split; [|split; [|split]].
  - split; [|done]. intros _ H.
    repeat (apply elem_of_cons in H as [H|H]; [done|]). by apply elem_of_nil in H.
  - intros _. reflexivity.
  - lia.
  - vm_compute. discriminate.
Qed.
